(** * Recipes API: pagination helper and the cached recipe listing service

    A shallow embedding of [paginateResults] (utils) and of [RecipesService]
    (src/recipes/recipes.service.ts).  The service is stateful: it owns the
    [cacheKey] slot and talks to a cache store, a document store and an image
    host.  Its methods are embedded in a small state-and-exception monad over
    the record [service]; the outcome of every call to an outside collaborator
    that can fail is supplied by a record [effects]. *)

From Stdlib Require Import Ascii String.
From stdpp Require Import gmap strings list fin_maps pretty sorting.

Open Scope Z_scope.

(** ** JavaScript numbers

    Counts, pages and limits are integers ([countDocuments], [ParseIntPipe]),
    but [Math.ceil(totalItems / limit)] is a JavaScript number: dividing by
    zero gives an infinity or [NaN].  Finite values are kept exact, which is
    what IEEE doubles do below 2^53. *)

Inductive jsnum :=
  | Num (z : Z)
  | PosInf
  | NegInf
  | NaN.

Global Instance jsnum_eq_dec : EqDecision jsnum.
Proof. solve_decision. Defined.

(** [Math.ceil(a / b)] for integers [a] and [b]; the [0] of [Z] is
    JavaScript's [+0].  The divisor [-0], which the integer pipe of the
    controller yields for the text "-0", is covered by [ceil_div_js]. *)
Definition ceil_div (a b : Z) : jsnum :=
  if decide (b = 0) then
    if decide (0 < a) then PosInf
    else if decide (a < 0) then NegInf
    else NaN
  else Num (- ((- a) `div` b)).

(** [page > n] with [page] an integer and [n] a JavaScript number; every
    comparison with [NaN] is false. *)
Definition js_gt (page : Z) (n : jsnum) : bool :=
  match n with
  | Num z => bool_decide (z < page)
  | PosInf => false
  | NegInf => true
  | NaN => false
  end.

(** ** Exceptions and results *)

Inductive HttpStatus :=
  | NOT_FOUND
  | INTERNAL_SERVER_ERROR.

(** What a method can throw: an [HttpException] built by the service, or any
    other value raised by a collaborator or by the runtime (a rejected upload,
    a [TypeError]), identified by its cause. *)
Inductive exn :=
  | HttpException (message : string) (status : HttpStatus)
  | Failure (cause : string).

Inductive result (A : Type) :=
  | Ok (a : A)
  | Throw (e : exn).
Arguments Ok {A} a.
Arguments Throw {A} e.

Global Instance HttpStatus_eq_dec : EqDecision HttpStatus.
Proof. solve_decision. Defined.
Global Instance exn_eq_dec : EqDecision exn.
Proof. solve_decision. Defined.

Definition is_ok {A} (r : result A) : bool :=
  match r with Ok _ => true | Throw _ => false end.

Definition page_not_found : exn :=
  HttpException "Página no encontrada" NOT_FOUND.

(** ** The pagination helper *)

Module Pagination.
Record t := {
  totalItems : Z;
  totalPages : jsnum;
  currentPage : Z;
}.
End Pagination.

Definition paginateResults (totalItems page limit : Z) : result Pagination.t :=
  let totalPages := ceil_div totalItems limit in
  if (page <? 1) || js_gt page totalPages then Throw page_not_found
  else Ok {| Pagination.totalItems := totalItems;
             Pagination.totalPages := totalPages;
             Pagination.currentPage := page |}.

(** ** Entities

    Modelled from the spec: the entity declarations (entities/recipe.entity,
    entities/category.entity) and [CreateRecipeDto] are not among the sources;
    the fields are those of the data model, of [UpdateRecipeDto] and of the
    projections the service names ([public_id], [category], [createdAt]). *)

(** An id as the store holds it and as the driver hands it to a query: the
    text of an ObjectId.  The string that comes with a request is not one
    yet; the driver casts it first, see [castId] and the methods built on
    it. *)
Definition ObjectId := string.

Record Category := {
  category_id : ObjectId;
  category_name : string;
  category_public_id : option string;
}.

Record Recipe := {
  _id : ObjectId;
  name : string;
  description : string;
  ingredients : list string;
  steps : list string;
  image : string;
  public_id : string;
  category : ObjectId;
  country : option ObjectId;
  createdAt : Z;
}.

(** What a query hands back: a document whose [public_id] may have been
    projected away and whose [category] is either the stored reference or the
    joined category ([null] when the reference dangles). *)
Inductive category_field :=
  | Ref (id : ObjectId)
  | Populated (c : option Category).

Record RecipeDocument := {
  doc_id : ObjectId;
  doc_name : string;
  doc_description : string;
  doc_ingredients : list string;
  doc_steps : list string;
  doc_image : string;
  doc_public_id : option string;
  doc_category : category_field;
  doc_country : option ObjectId;
  doc_createdAt : Z;
}.

(** A stored recipe read back with no projection and no join. *)
Definition hydrate (r : Recipe) : RecipeDocument :=
  {| doc_id := _id r;
     doc_name := name r;
     doc_description := description r;
     doc_ingredients := ingredients r;
     doc_steps := steps r;
     doc_image := image r;
     doc_public_id := Some (public_id r);
     doc_category := Ref (category r);
     doc_country := country r;
     doc_createdAt := createdAt r |}.

(** ** The document store's query builder

    A query collects options; the order of the chained calls is irrelevant.
    On execution the store filters, sorts, skips, limits, and then projects
    and joins each document. *)

Inductive projection :=
  | all_fields
  | minus_public_id.

Record Query := {
  conditions : Recipe → bool;
  skip_option : option Z;
  limit_option : option Z;
  sort_option : option Z;
  select_option : projection;
  populate_option : option projection;
}.

Module Q.
Definition find (conditions : Recipe → bool) : Query :=
  {| conditions := conditions;
     skip_option := None;
     limit_option := None;
     sort_option := None;
     select_option := all_fields;
     populate_option := None |}.

Definition find_all : Query := find (λ _, true).

Definition skip (n : Z) (q : Query) : Query :=
  {| conditions := conditions q;
     skip_option := Some n;
     limit_option := limit_option q;
     sort_option := sort_option q;
     select_option := select_option q;
     populate_option := populate_option q |}.

Definition limit (n : Z) (q : Query) : Query :=
  {| conditions := conditions q;
     skip_option := skip_option q;
     limit_option := Some n;
     sort_option := sort_option q;
     select_option := select_option q;
     populate_option := populate_option q |}.

(** [.sort({ createdAt: direction })] *)
Definition sort (direction : Z) (q : Query) : Query :=
  {| conditions := conditions q;
     skip_option := skip_option q;
     limit_option := limit_option q;
     sort_option := Some direction;
     select_option := select_option q;
     populate_option := populate_option q |}.

(** [.select('-public_id')] is [Q.select minus_public_id]. *)
Definition select (p : projection) (q : Query) : Query :=
  {| conditions := conditions q;
     skip_option := skip_option q;
     limit_option := limit_option q;
     sort_option := sort_option q;
     select_option := p;
     populate_option := populate_option q |}.

(** [.populate('category', '-public_id')] is
    [Q.populate minus_public_id]. *)
Definition populate (p : projection) (q : Query) : Query :=
  {| conditions := conditions q;
     skip_option := skip_option q;
     limit_option := limit_option q;
     sort_option := sort_option q;
     select_option := select_option q;
     populate_option := Some p |}.
End Q.

Notation "q |> f" := (f q) (at level 45, left associativity, only parsing).

Definition newer_first (r1 r2 : Recipe) : Prop := createdAt r2 ≤ createdAt r1.
Definition older_first (r1 r2 : Recipe) : Prop := createdAt r1 ≤ createdAt r2.

Global Instance newer_first_dec : RelDecision newer_first.
Proof. intros r1 r2. unfold newer_first. apply _. Defined.
Global Instance older_first_dec : RelDecision older_first.
Proof. intros r1 r2. unfold older_first. apply _. Defined.

Global Instance newer_first_total : Total newer_first.
Proof. intros r1 r2. unfold newer_first. lia. Qed.
Global Instance newer_first_trans : Transitive newer_first.
Proof. intros r1 r2 r3. unfold newer_first. lia. Qed.

(** The store does not say how it orders recipes with equal timestamps; the
    model fixes one order, that of a merge sort. *)
Definition apply_sort (o : option Z) (l : list Recipe) : list Recipe :=
  match o with
  | None => l
  | Some direction =>
      if direction <? 0 then merge_sort newer_first l
      else merge_sort older_first l
  end.

(** A negative skip is refused by the store; the service never issues one
    (see [findAll_skip_nonneg]). *)
Definition apply_skip (o : option Z) (l : list Recipe) : list Recipe :=
  match o with
  | None => l
  | Some n => drop (Z.to_nat n) l
  end.

(** [limit(0)] means no limit.  A negative limit counts as its absolute
    value here; the driver in addition closes the cursor after the first
    batch, so a large negative limit may return fewer documents than the
    model does. *)
Definition apply_limit (o : option Z) (l : list Recipe) : list Recipe :=
  match o with
  | None => l
  | Some n => if decide (n = 0) then l else take (Z.to_nat (Z.abs n)) l
  end.

Definition project_category (p : projection) (c : Category) : Category :=
  match p with
  | all_fields => c
  | minus_public_id =>
      {| category_id := category_id c;
         category_name := category_name c;
         category_public_id := None |}
  end.

Definition findCategory (cats : list Category) (id : ObjectId)
  : option Category :=
  head (filter (λ c, category_id c = id) cats).

Definition apply_select (p : projection) (d : RecipeDocument)
  : RecipeDocument :=
  match p with
  | all_fields => d
  | minus_public_id =>
      {| doc_id := doc_id d;
         doc_name := doc_name d;
         doc_description := doc_description d;
         doc_ingredients := doc_ingredients d;
         doc_steps := doc_steps d;
         doc_image := doc_image d;
         doc_public_id := None;
         doc_category := doc_category d;
         doc_country := doc_country d;
         doc_createdAt := doc_createdAt d |}
  end.

Definition apply_populate (cats : list Category) (o : option projection)
    (d : RecipeDocument) : RecipeDocument :=
  match o, doc_category d with
  | Some p, Ref id =>
      {| doc_id := doc_id d;
         doc_name := doc_name d;
         doc_description := doc_description d;
         doc_ingredients := doc_ingredients d;
         doc_steps := doc_steps d;
         doc_image := doc_image d;
         doc_public_id := doc_public_id d;
         doc_category :=
           Populated (project_category p <$> findCategory cats id);
         doc_country := doc_country d;
         doc_createdAt := doc_createdAt d |}
  | _, _ => d
  end.

(** The projection and join applied to one stored recipe. *)
Definition render (cats : list Category) (q : Query) (r : Recipe)
  : RecipeDocument :=
  apply_populate cats (populate_option q)
    (apply_select (select_option q) (hydrate r)).

Definition exec_query (q : Query) (recipes : list Recipe)
    (cats : list Category) : list RecipeDocument :=
  render cats q <$>
    apply_limit (limit_option q)
      (apply_skip (skip_option q)
         (apply_sort (sort_option q)
            (filter (λ r, conditions q r = true) recipes))).

(** ** The service instance and its collaborators *)

Record recipePageData := {
  page : Z;
  totalPages : jsnum;
  totalRecipes : Z;
  data : list RecipeDocument;
}.

(** [cacheKey] is the private field of the class; [cacheManager] is the
    content of the cache store (entries do not expire on their own),
    [RecipeEntity] and [CategoryEntity] the two collections in insertion
    order, [console] what [console.log] has printed. *)
Record service := {
  cacheKey : string;
  cacheManager : gmap string recipePageData;
  RecipeEntity : list Recipe;
  CategoryEntity : list Category;
  console : list exn;
}.

Definition new_service (recipes : list Recipe) (cats : list Category)
  : service :=
  {| cacheKey := "";
     cacheManager := ∅;
     RecipeEntity := recipes;
     CategoryEntity := cats;
     console := [] |}.

Definition with_cacheKey (k : string) (s : service) : service :=
  {| cacheKey := k;
     cacheManager := cacheManager s;
     RecipeEntity := RecipeEntity s;
     CategoryEntity := CategoryEntity s;
     console := console s |}.

Definition with_cacheManager (m : gmap string recipePageData) (s : service)
  : service :=
  {| cacheKey := cacheKey s;
     cacheManager := m;
     RecipeEntity := RecipeEntity s;
     CategoryEntity := CategoryEntity s;
     console := console s |}.

Definition with_RecipeEntity (l : list Recipe) (s : service) : service :=
  {| cacheKey := cacheKey s;
     cacheManager := cacheManager s;
     RecipeEntity := l;
     CategoryEntity := CategoryEntity s;
     console := console s |}.

Definition with_console (l : list exn) (s : service) : service :=
  {| cacheKey := cacheKey s;
     cacheManager := cacheManager s;
     RecipeEntity := RecipeEntity s;
     CategoryEntity := CategoryEntity s;
     console := l |}.

(** The store as changed from outside the service (another process, another
    service instance): both collections replaced, the rest kept. *)
Definition with_store (recipes : list Recipe) (cats : list Category)
    (s : service) : service :=
  {| cacheKey := cacheKey s;
     cacheManager := cacheManager s;
     RecipeEntity := recipes;
     CategoryEntity := cats;
     console := console s |}.

(** *** Methods as state transformers that may throw *)

Definition M (A : Type) : Type := service → result A * service.

Definition ret {A} (a : A) : M A := λ s, (Ok a, s).

Definition throw {A} (e : exn) : M A := λ s, (Throw e, s).

Definition bind {A B} (m : M A) (k : A → M B) : M B :=
  λ s, match m s with
       | (Ok a, s') => k a s'
       | (Throw e, s') => (Throw e, s')
       end.

(** [try { body } catch (error) { handler }] *)
Definition try_catch {A} (body : M A) (handler : exn → M A) : M A :=
  λ s, match body s with
       | (Ok a, s') => (Ok a, s')
       | (Throw e, s') => handler e s'
       end.

(** How a promise of an outside collaborator settles.  A rejection carries
    the collaborator's own error, never an [HttpException] of the service. *)
Inductive outcome (A : Type) :=
  | Resolved (a : A)
  | Rejected (cause : string).
Arguments Resolved {A} a.
Arguments Rejected {A} cause.

(** [await p] for a collaborator's promise [p]. *)
Definition await {A} (p : outcome A) : M A :=
  λ s, match p with
       | Resolved a => (Ok a, s)
       | Rejected cause => (Throw (Failure cause), s)
       end.

(** A call whose promise is dropped: its effect takes place, its rejection
    reaches nobody. *)
Definition not_awaited {A} (m : M A) : M unit := λ s, (Ok (), snd (m s)).

Definition gets {A} (f : service → A) : M A := λ s, (Ok (f s), s).
Definition modify (f : service → service) : M unit := λ s, (Ok (), f s).

Notation "'let*' x := m 'in' k" := (bind m (λ x, k))
  (at level 10, x name, m at level 100, k at level 200,
   format "'[v' 'let*'  x  :=  m  'in'  '/' k ']'").

Definition console_log (e : exn) : M unit :=
  modify (λ s, with_console (console s ++ [e]) s).

Definition cache_get (k : string) : M (option recipePageData) :=
  gets (λ s, cacheManager s !! k).
Definition cache_set (k : string) (v : recipePageData) : M unit :=
  modify (λ s, with_cacheManager (<[k := v]> (cacheManager s)) s).
Definition cache_del (k : string) : M unit :=
  modify (λ s, with_cacheManager (delete k (cacheManager s)) s).

Definition countDocuments : M Z :=
  gets (λ s, Z.of_nat (length (RecipeEntity s))).

Definition exec (q : Query) : M (list RecipeDocument) :=
  gets (λ s, exec_query q (RecipeEntity s) (CategoryEntity s)).

(** The filter of a lookup by id, the id already cast. *)
Definition by_id (id : ObjectId) : Recipe → bool :=
  λ r, bool_decide (_id r = id).

(** [findById(id)] followed by the same chain of options; the first match. *)
Definition exec_one (q : Query) : M (option RecipeDocument) :=
  gets (λ s, head (exec_query q (RecipeEntity s) (CategoryEntity s))).

(** The stored recipe itself, as [update] and [remove] read it, for an id
    already cast. *)
Definition findById (id : ObjectId) : M (option Recipe) :=
  gets (λ s, head (filter (λ r, by_id id r = true) (RecipeEntity s))).

(** ** RecipesService *)

(** The template literal prints an integer digit by digit as long as
    JavaScript holds it exactly and below 10^21; [pretty] does so for every
    integer. *)
Definition generateCacheKey (page limit : Z) : string :=
  "recipes_list_page_" +:+ pretty page +:+ "_" +:+ pretty limit.

Definition deleteCacheByKey (cacheKey : string) : M unit :=
  cache_del cacheKey.

Definition findAll (page limit : Z) : M recipePageData :=
  let* _ := modify (with_cacheKey (generateCacheKey page limit)) in
  let* this_cacheKey := gets cacheKey in
  let* cacheData := cache_get this_cacheKey in
  let* totalRecipes := countDocuments in
  let totalPages := ceil_div totalRecipes limit in
  if (page <? 1) || js_gt page totalPages then throw page_not_found
  else
    match cacheData with
    | None =>
        let skip := (page - 1) * limit in
        let* recipes := exec (Q.find_all
                        |> Q.skip skip
                        |> Q.limit limit
                        |> Q.populate minus_public_id
                        |> Q.select minus_public_id
                        |> Q.sort (-1)) in
        let recipePageData :=
          {| page := page;
             totalPages := totalPages;
             totalRecipes := totalRecipes;
             data := recipes |} in
        let* this_cacheKey := gets cacheKey in
        let* _ := cache_set this_cacheKey recipePageData in
        ret {| page := page;
               totalPages := totalPages;
               totalRecipes := totalRecipes;
               data := recipes |}
    | Some cached => ret cached
    end.

Definition recipe_not_found : exn :=
  HttpException "La receta no existe!" NOT_FOUND.

Definition findOne (id : ObjectId) : M RecipeDocument :=
  let* recipe := exec_one (Q.find (by_id id)
                     |> Q.populate minus_public_id
                     |> Q.select minus_public_id) in
  match recipe with
  | None => throw recipe_not_found
  | Some recipe => ret recipe
  end.

Definition getLatestRecipes (limit : Z) : M (list RecipeDocument) :=
  exec (Q.find_all |> Q.limit limit |> Q.sort (-1)).

(** What [searchByName] and [getRecipesByCategory] return: the documents, or
    an object holding only a message. *)
Inductive listing :=
  | Message (message : string)
  | Recipes (recipes : list RecipeDocument).

Record SearchRecipeDto := { search_name : string }.

(** The store's [$regex] matching with option [i] is a parameter:
    [regex_i pattern subject]. *)
Definition searchByName (regex_i : string → string → bool)
    (searchRecipeDto : SearchRecipeDto) : M listing :=
  let query := λ r, regex_i (search_name searchRecipeDto) (name r) in
  let* recipes := exec (Q.find query
                  |> Q.populate minus_public_id
                  |> Q.select minus_public_id
                  |> Q.sort (-1)) in
  if (length recipes =? 0)%nat
  then ret (Message "No se encontraron recetas con ese nombre.")
  else ret (Recipes recipes).

Definition getRecipesByCategory (categoryId : ObjectId) : M listing :=
  let* recipes := exec (Q.find (λ r, bool_decide (category r = categoryId))
                  |> Q.select minus_public_id
                  |> Q.populate minus_public_id) in
  if (length recipes =? 0)%nat
  then ret (Message "No hay recetas en esta categoria")
  else ret (Recipes recipes).

(** *** Writes *)

Record CreateRecipeDto := {
  create_name : string;
  create_description : string;
  create_ingredients : list string;
  create_steps : list string;
  create_country : option ObjectId;
  create_category : ObjectId;
}.

Record UpdateRecipeDto := {
  update_name : option string;
  update_description : option string;
  update_ingredients : option (list string);
  update_steps : option (list string);
  update_country : option ObjectId;
  update_category : option ObjectId;
  update_image : option string;
  update_public_id : option string;
}.

(** The uploaded file, [Express.Multer.File]; the controller passes
    [undefined] when the request carries none. *)
Record File := { path : string }.

Record UploadApiResponse := {
  secure_url : string;
  upload_public_id : string;
}.

(** How the outside world answers during one call: the image host
    ([uploadImage], [deleteImage]), the file system ([unlink]), a write to the
    document store ([store_write], for [save], [findByIdAndUpdate] and
    [findByIdAndDelete]), and the identifier and timestamp the store gives a
    new document. *)
Record effects := {
  uploadImage : string → string → outcome UploadApiResponse;
  deleteImage : string → outcome unit;
  unlink : string → outcome unit;
  store_write : outcome unit;
  new_id : ObjectId;
  now : Z;
}.

(** [{ message, name }] *)
Record written := {
  message : string;
  written_name : option string;
}.

(** The block each write starts its cache handling with:
    [if (this.cacheKey) { await this.deleteCacheByKey(this.cacheKey);
    this.cacheKey = ''; }]. *)
Definition invalidate : M unit :=
  let* this_cacheKey := gets cacheKey in
  if bool_decide (this_cacheKey = "") then ret ()
  else
    let* _ := deleteCacheByKey this_cacheKey in
    modify (with_cacheKey "").

Definition save (fx : effects) (newRecipe : Recipe) : M unit :=
  let* _ := await (store_write fx) in
  modify (λ s, with_RecipeEntity (RecipeEntity s ++ [newRecipe]) s).

Definition apply_update (dto : UpdateRecipeDto) (r : Recipe) : Recipe :=
  {| _id := _id r;
     name := default (name r) (update_name dto);
     description := default (description r) (update_description dto);
     ingredients := default (ingredients r) (update_ingredients dto);
     steps := default (steps r) (update_steps dto);
     image := default (image r) (update_image dto);
     public_id := default (public_id r) (update_public_id dto);
     category := default (category r) (update_category dto);
     country := match update_country dto with
                | Some c => Some c
                | None => country r
                end;
     createdAt := createdAt r |}.

Fixpoint update_first (id : ObjectId) (f : Recipe → Recipe)
    (l : list Recipe) : list Recipe :=
  match l with
  | [] => []
  | r :: l => if by_id id r then f r :: l else r :: update_first id f l
  end.

Fixpoint delete_first (id : ObjectId) (l : list Recipe) : list Recipe :=
  match l with
  | [] => []
  | r :: l => if by_id id r then l else r :: delete_first id l
  end.

Definition findByIdAndUpdate (fx : effects) (id : ObjectId)
    (dto : UpdateRecipeDto) : M unit :=
  let* _ := await (store_write fx) in
  modify (λ s,
    with_RecipeEntity (update_first id (apply_update dto) (RecipeEntity s)) s).

Definition findByIdAndDelete (fx : effects) (id : ObjectId) : M unit :=
  let* _ := await (store_write fx) in
  modify (λ s, with_RecipeEntity (delete_first id (RecipeEntity s)) s).

Definition creation_failed : exn :=
  HttpException "Error al crear la receta" INTERNAL_SERVER_ERROR.

(** Reading [image.path] when no file came with the request. *)
Definition image_path (image : option File) : M string :=
  match image with
  | Some image => ret (path image)
  | None =>
      throw (Failure "TypeError: Cannot read properties of undefined")
  end.

Definition create (createRecipeDto : CreateRecipeDto) (image : option File)
    (fx : effects) : M written :=
  try_catch
    (let* _ := invalidate in
     let* image_path := image_path image in
     let* cloudinaryResponse := await (uploadImage fx image_path "recipes") in
     let* _ := await (unlink fx image_path) in
     let newRecipe :=
       {| _id := new_id fx;
          name := create_name createRecipeDto;
          description := create_description createRecipeDto;
          ingredients := create_ingredients createRecipeDto;
          steps := create_steps createRecipeDto;
          image := secure_url cloudinaryResponse;
          public_id := upload_public_id cloudinaryResponse;
          category := create_category createRecipeDto;
          country := create_country createRecipeDto;
          createdAt := now fx |} in
     let* _ := not_awaited (save fx newRecipe) in
     ret {| message := "Receta creada correctamente";
            written_name := Some (create_name createRecipeDto) |})
    (λ error,
       let* _ := console_log error in
       throw creation_failed).

Definition with_image (newImage : UploadApiResponse) (dto : UpdateRecipeDto)
  : UpdateRecipeDto :=
  {| update_name := update_name dto;
     update_description := update_description dto;
     update_ingredients := update_ingredients dto;
     update_steps := update_steps dto;
     update_country := update_country dto;
     update_category := update_category dto;
     update_image := Some (secure_url newImage);
     update_public_id := Some (upload_public_id newImage) |}.

Definition update (id : ObjectId) (updateRecipeDto : UpdateRecipeDto)
    (image : option File) (fx : effects) : M written :=
  let* recipeFound := findById id in
  match recipeFound with
  | None => throw recipe_not_found
  | Some recipeFound =>
      let* _ := invalidate in
      let* updateRecipeDto :=
        match image with
        | Some image =>
            let* _ := await (deleteImage fx (public_id recipeFound)) in
            let* newImage := await (uploadImage fx (path image) "recipes") in
            let* _ := await (unlink fx (path image)) in
            ret (with_image newImage updateRecipeDto)
        | None => ret updateRecipeDto
        end in
      let* _ := findByIdAndUpdate fx id updateRecipeDto in
      ret {| message := "Receta actualizada correctamente";
             written_name := update_name updateRecipeDto |}
  end.

Definition remove (id : ObjectId) (fx : effects) : M written :=
  let* recipeFound := findById id in
  match recipeFound with
  | None => throw recipe_not_found
  | Some recipeFound =>
      let* _ := invalidate in
      let* _ := await (deleteImage fx (public_id recipeFound)) in
      let* _ := findByIdAndDelete fx id in
      ret {| message := "Receta eliminada correctamente";
             written_name := Some (name recipeFound) |}
  end.

(** ** Requests, as the controller forwards them *)

Inductive request :=
  | FindAll (page limit : Z)
  | FindOne (id : ObjectId)
  | GetLatestRecipes (limit : Z)
  | SearchByName (searchRecipeDto : SearchRecipeDto)
  | GetRecipesByCategory (categoryId : ObjectId)
  | Create (createRecipeDto : CreateRecipeDto) (image : option File)
      (fx : effects)
  | Update (id : ObjectId) (updateRecipeDto : UpdateRecipeDto)
      (image : option File) (fx : effects)
  | Remove (id : ObjectId) (fx : effects).

Inductive response :=
  | PageData (d : recipePageData)
  | Document (d : RecipeDocument)
  | Documents (l : list RecipeDocument)
  | Listing (l : listing)
  | Written (w : written).

Definition fmapM {A B} (f : A → B) (m : M A) : M B :=
  let* a := m in ret (f a).

Definition is_write (rq : request) : bool :=
  match rq with
  | Create _ _ _ | Update _ _ _ _ | Remove _ _ => true
  | _ => false
  end.

Definition is_findAll (rq : request) : bool :=
  match rq with
  | FindAll _ _ => true
  | _ => false
  end.

(** Whether a write gets as far as its cache handling: [create] starts with
    it, [update] and [remove] first look the recipe up and throw when it is
    absent. *)
Definition reaches_invalidation (rq : request) (s : service) : bool :=
  match rq with
  | Create _ _ _ => true
  | Update id _ _ _ | Remove id _ =>
      match head (filter (λ r, by_id id r = true) (RecipeEntity s)) with
      | Some _ => true
      | None => false
      end
  | _ => false
  end.

(** The same, read off a log entry. *)
Definition invalidating (rq : request) (r : result response) : bool :=
  is_write rq &&
  match r with
  | Throw e => negb (bool_decide (e = recipe_not_found))
  | Ok _ => true
  end.

(** The page of the last list request in a log that was answered with a
    page, if any. *)
Fixpoint last_served (log : list (request * result response))
  : option (Z * Z) :=
  match log with
  | [] => None
  | (rq, r) :: log =>
      match last_served log with
      | Some served => Some served
      | None =>
          match rq, r with
          | FindAll page limit, Ok _ => Some (page, limit)
          | _, _ => None
          end
      end
  end.

(** The key of the last list request in a log, answered or refused, unless
    a write has got to its cache handling since; [k0] is the key tracked
    before the log starts. *)
Fixpoint last_requested (k0 : string)
    (log : list (request * result response)) : string :=
  match log with
  | [] => k0
  | (rq, r) :: log =>
      last_requested
        match rq with
        | FindAll page limit => generateCacheKey page limit
        | _ => if invalidating rq r then "" else k0
        end
        log
  end.

Section requests.
Variable regex_i : string → string → bool.

Definition handle (rq : request) : M response :=
  match rq with
  | FindAll page limit => fmapM PageData (findAll page limit)
  | FindOne id => fmapM Document (findOne id)
  | GetLatestRecipes limit => fmapM Documents (getLatestRecipes limit)
  | SearchByName dto => fmapM Listing (searchByName regex_i dto)
  | GetRecipesByCategory id => fmapM Listing (getRecipesByCategory id)
  | Create dto image fx => fmapM Written (create dto image fx)
  | Update id dto image fx => fmapM Written (update id dto image fx)
  | Remove id fx => fmapM Written (remove id fx)
  end.

(** The service handling a sequence of requests one after the other; the
    log pairs each request with its outcome. *)
Fixpoint serve (rqs : list request) (s : service)
  : list (request * result response) * service :=
  match rqs with
  | [] => ([], s)
  | rq :: rqs =>
      let '(r, s1) := handle rq s in
      let '(log, s2) := serve rqs s1 in
      ((rq, r) :: log, s2)
  end.
End requests.

(** ** Sample data for the examples *)

Definition lower (c : ascii) : ascii :=
  let n := nat_of_ascii c in
  if ((65 <=? n) && (n <=? 90))%nat then ascii_of_nat (n + 32) else c.

Fixpoint lowercase (s : string) : string :=
  match s with
  | EmptyString => EmptyString
  | String c s => String (lower c) (lowercase s)
  end.

Fixpoint contains (pattern subject : string) : bool :=
  String.prefix pattern subject ||
  match subject with
  | EmptyString => false
  | String _ subject => contains pattern subject
  end.

(** A pattern without metacharacters matched as [$regex] with option [i]
    does: case-insensitive search for the pattern anywhere in the subject. *)
Definition literal_i (pattern subject : string) : bool :=
  contains (lowercase pattern) (lowercase subject).

Definition postres : Category :=
  {| category_id := "c1";
     category_name := "Postres";
     category_public_id := Some "categories/postres" |}.

Definition flan : Recipe :=
  {| _id := "a";
     name := "Flan";
     description := "Flan de huevo";
     ingredients := ["huevos"; "leche"];
     steps := ["batir"; "hornear"];
     image := "https://img/flan.png";
     public_id := "recipes/flan";
     category := "c1";
     country := None;
     createdAt := 1 |}.

Definition arepa : Recipe :=
  {| _id := "b";
     name := "Arepa";
     description := "Arepa de maiz";
     ingredients := ["maiz"];
     steps := ["amasar"; "asar"];
     image := "https://img/arepa.png";
     public_id := "recipes/arepa";
     category := "c2";
     country := Some "co";
     createdAt := 2 |}.

Definition sancocho_dto : CreateRecipeDto :=
  {| create_name := "Sancocho";
     create_description := "Sopa";
     create_ingredients := ["yuca"];
     create_steps := ["hervir"];
     create_country := Some "co";
     create_category := "c1" |}.

Definition sancocho : Recipe :=
  {| _id := "c";
     name := "Sancocho";
     description := "Sopa";
     ingredients := ["yuca"];
     steps := ["hervir"];
     image := "https://img/sancocho.png";
     public_id := "recipes/sancocho";
     category := "c1";
     country := Some "co";
     createdAt := 10 |}.

Definition upload_jpg : File := {| path := "upload/1.jpg" |}.

(** Every collaborator answers. *)
Definition all_well : effects :=
  {| uploadImage := λ _ _,
       Resolved {| secure_url := "https://img/new.png";
                   upload_public_id := "recipes/new" |};
     deleteImage := λ _, Resolved ();
     unlink := λ _, Resolved ();
     store_write := Resolved ();
     new_id := "n";
     now := 10 |}.

(** The image host rejects the upload. *)
Definition upload_rejected : effects :=
  {| uploadImage := λ _ _, Rejected "cloudinary: 401";
     deleteImage := λ _, Resolved ();
     unlink := λ _, Resolved ();
     store_write := Resolved ();
     new_id := "n";
     now := 10 |}.

(** The upload goes through and the document store rejects the write. *)
Definition write_rejected : effects :=
  {| uploadImage := λ _ _,
       Resolved {| secure_url := "https://img/new.png";
                   upload_public_id := "recipes/new" |};
     deleteImage := λ _, Resolved ();
     unlink := λ _, Resolved ();
     store_write := Rejected "MongoServerError";
     new_id := "n";
     now := 10 |}.

Definition two_recipes : service := new_service [flan; arepa] [postres].

(** Both pages of size 1 listed, the first one last. *)
Definition both_listed : service :=
  snd (serve literal_i [FindAll 2 1; FindAll 1 1] two_recipes).

(** One recipe removed after both pages were listed: page 2 is still cached
    and no longer exists. *)
Definition one_left : service :=
  snd (serve literal_i [Remove "a" all_well] both_listed).

(** ** Vocabulary of the statements *)

(** [countDocuments()] on the current store. *)
Definition count (s : service) : Z := Z.of_nat (length (RecipeEntity s)).

(** The state a write leaves its cache handling in. *)
Definition invalidated (s : service) : service := snd (invalidate s).

(** A listed recipe: the asset id gone, the category joined with its own
    asset id gone. *)
Definition listed (cats : list Category) (r : Recipe) : RecipeDocument :=
  {| doc_id := _id r;
     doc_name := name r;
     doc_description := description r;
     doc_ingredients := ingredients r;
     doc_steps := steps r;
     doc_image := image r;
     doc_public_id := None;
     doc_category :=
       Populated (project_category minus_public_id <$>
                    findCategory cats (category r));
     doc_country := country r;
     doc_createdAt := createdAt r |}.

(** The category of a listed document is joined and carries no asset id. *)
Definition category_joined (d : RecipeDocument) : Prop :=
  ∃ c, doc_category d = Populated c ∧
       ∀ c', c = Some c' → category_public_id c' = None.

(** The reading of the single-slot policy that ties the deleted entry to
    the page served last: on a service started with an empty cache, an entry
    that a write changes is the entry of the last page served. *)
Definition write_deletes_last_served_only
    (regex_i : string → string → bool) : Prop :=
  ∀ (recipes : list Recipe) (cats : list Category) (history : list request)
    (w : request),
    is_write w = true →
    let log := fst (serve regex_i history (new_service recipes cats)) in
    let s := snd (serve regex_i history (new_service recipes cats)) in
    let s' := snd (handle regex_i w s) in
    ∀ k : string,
      cacheManager s' !! k ≠ cacheManager s !! k →
      ∃ page limit,
        last_served log = Some (page, limit) ∧
        k = generateCacheKey page limit.

(** The reading under which only a served listing re-arms the slot: on a
    service started with an empty cache, after a write that got to its cache
    handling, and requests among which no list request was served, the next
    write leaves the cache as it is. *)
Definition rearmed_by_served_listing_only
    (regex_i : string → string → bool) : Prop :=
  ∀ (recipes : list Recipe) (cats : list Category) (history : list request)
    (w1 : request) (mid : list request) (w2 : request),
    let s := snd (serve regex_i history (new_service recipes cats)) in
    is_write w1 = true →
    reaches_invalidation w1 s = true →
    let s1 := snd (handle regex_i w1 s) in
    let log := fst (serve regex_i mid s1) in
    let s2 := snd (serve regex_i mid s1) in
    Forall (λ entry, is_findAll (fst entry) && is_ok (snd entry) = false)
      log →
    is_write w2 = true →
    cacheManager (snd (handle regex_i w2 s2)) = cacheManager s2.

(** ** Vocabulary of the further statements *)

(** No two stored recipes share an id. *)
Definition unique_ids (l : list Recipe) : Prop := NoDup (_id <$> l).

(** The stored recipe [update] and [remove] look up. *)
Definition found (id : ObjectId) (s : service) : option Recipe :=
  head (filter (λ r, by_id id r = true) (RecipeEntity s)).

(** The recipe [create] builds from the request and the upload response. *)
Definition created (dto : CreateRecipeDto) (a : UploadApiResponse)
    (fx : effects) : Recipe :=
  {| _id := new_id fx;
     name := create_name dto;
     description := create_description dto;
     ingredients := create_ingredients dto;
     steps := create_steps dto;
     image := secure_url a;
     public_id := upload_public_id a;
     category := create_category dto;
     country := create_country dto;
     createdAt := now fx |}.

(** Every cache entry sits under a key of the page it describes, and its
    documents carry no asset id. *)
Definition cache_consistent (s : service) : Prop :=
  ∀ k d, cacheManager s !! k = Some d →
    (∃ limit, k = generateCacheKey (page d) limit) ∧
    Forall (λ doc, doc_public_id doc = None) (data d).

(** What a list request gets from the store when nothing is cached. *)
Definition fresh_page (page limit : Z) (s : service) : list RecipeDocument :=
  match fst (findAll page limit (with_cacheManager ∅ s)) with
  | Ok d => data d
  | Throw _ => []
  end.

(** The order of a listing: later timestamps first. *)
Definition newest_document_first (d1 d2 : RecipeDocument) : Prop :=
  doc_createdAt d2 ≤ doc_createdAt d1.

(** A positive integer that JavaScript holds exactly, and prints digit by
    digit. *)
Definition safe_positive (n : Z) : Prop := 1 ≤ n ≤ 9007199254740991.

(** *** The integers of a request

    The integer pipe of the controller hands over a finite integer or
    [-0] (for the text "-0"). *)
Inductive jsint :=
  | Int (z : Z)
  | MinusZero.

Definition jsint_value (n : jsint) : Z :=
  match n with
  | Int z => z
  | MinusZero => 0
  end.

(** [Math.ceil(a / b)]: dividing by [-0] gives the infinity of the opposite
    sign. *)
Definition ceil_div_js (a : Z) (b : jsint) : jsnum :=
  match b with
  | Int b => ceil_div a b
  | MinusZero =>
      if decide (0 < a) then NegInf
      else if decide (a < 0) then PosInf
      else NaN
  end.

(** [paginateResults] on the numbers of a request; on integers other than
    [-0] it is [paginateResults]. *)
Definition paginateResults_js (totalItems : Z) (page limit : jsint)
  : result Pagination.t :=
  let totalPages := ceil_div_js totalItems limit in
  if (jsint_value page <? 1) || js_gt (jsint_value page) totalPages
  then Throw page_not_found
  else Ok {| Pagination.totalItems := totalItems;
             Pagination.totalPages := totalPages;
             Pagination.currentPage := jsint_value page |}.

(** *** The ids of a request

    The controller passes the id of a request to the service as the string
    it is.  Inside [findById] and [find] the driver casts that string to an
    ObjectId before it queries, and throws a cast error when it cannot.  The
    driver is not among the sources: the cast is a parameter,
    [castObjectId value] being the ObjectId of [value], if any. *)
Definition cast_failed (value : string) : exn :=
  Failure ("CastError: Cast to ObjectId failed for value " +:+ value).

Definition castId (castObjectId : string → option ObjectId)
    (value : string) : M ObjectId :=
  match castObjectId value with
  | Some id => ret id
  | None => throw (cast_failed value)
  end.

(** The methods that take an id, on the string of the request: the cast
    comes with the first query, ahead of everything else the method does. *)
Definition findOne_raw (castObjectId : string → option ObjectId)
    (id : string) : M RecipeDocument :=
  let* id := castId castObjectId id in
  findOne id.

Definition getRecipesByCategory_raw
    (castObjectId : string → option ObjectId) (categoryId : string)
  : M listing :=
  let* categoryId := castId castObjectId categoryId in
  getRecipesByCategory categoryId.

Definition update_raw (castObjectId : string → option ObjectId)
    (id : string) (updateRecipeDto : UpdateRecipeDto) (image : option File)
    (fx : effects) : M written :=
  let* id := castId castObjectId id in
  update id updateRecipeDto image fx.

Definition remove_raw (castObjectId : string → option ObjectId)
    (id : string) (fx : effects) : M written :=
  let* id := castId castObjectId id in
  remove id fx.

(** Modelled from the driver's documentation, the driver not being among
    the sources: a string of 24 hexadecimal digits casts to the ObjectId
    with those digits; shorter and longer strings do not. *)
Definition is_hex (c : ascii) : bool :=
  let n := nat_of_ascii c in
  ((48 <=? n) && (n <=? 57) || (65 <=? n) && (n <=? 70)
   || (97 <=? n) && (n <=? 102))%nat.

Definition hex24 (value : string) : option ObjectId :=
  if (String.length value =? 24)%nat
     && forallb is_hex (list_ascii_of_string value)
  then Some (lowercase value)
  else None.

(** The reading that takes every id no recipe has to end in the 404, and
    every category no recipe refers to in the message. *)
Definition absent_id_ends_in_not_found
    (castObjectId : string → option ObjectId) : Prop :=
  ∀ (s : service) (id : string),
    (∀ r, r ∈ RecipeEntity s → _id r ≠ id) →
    (∀ r, r ∈ RecipeEntity s → category r ≠ id) →
    fst (findOne_raw castObjectId id s) = Throw recipe_not_found ∧
    fst (getRecipesByCategory_raw castObjectId id s) =
      Ok (Message "No hay recetas en esta categoria").

(** * Properties *)

(** *** Arithmetic of the page count *)

Section ceiling.
Variables T L : Z.
Hypothesis HL : 1 ≤ L.

Lemma ceil_div_pos : ceil_div T L = Num (- ((- T) `div` L)).
Proof. unfold ceil_div. case_decide; [lia | done]. Qed.

(** [n = ceil (T / L)] says [n - 1 < T / L ≤ n]; multiplied out: *)
Lemma ceil_div_bounds :
  let n := - ((- T) `div` L) in (n - 1) * L < T ≤ n * L.
Proof.
  intros n. subst n.
  pose proof (Z.div_mod (- T) L ltac:(lia)) as Hdm.
  pose proof (Z.mod_pos_bound (- T) L ltac:(lia)) as Hm.
  nia.
Qed.

Lemma ceil_unique (n m : Z) :
  (n - 1) * L < T ≤ n * L → (m - 1) * L < T ≤ m * L → n = m.
Proof. nia. Qed.

Lemma ceil_div_nonneg : 0 ≤ T → 0 ≤ - ((- T) `div` L).
Proof. intros HT. pose proof ceil_div_bounds as Hb. cbv zeta in Hb. nia. Qed.
End ceiling.

Example ceil_25_10 : ceil_div 25 10 = Num 3.
Proof. reflexivity. Qed.
Example ceil_0_0 : ceil_div 0 0 = NaN.
Proof. reflexivity. Qed.
Example paginate_page4 : paginateResults 25 4 10 = Throw page_not_found.
Proof. reflexivity. Qed.

(** C1.  For every total [T ≥ 0], page size [L ≥ 1] and requested page [P],
    [paginateResults] computes [totalPages = ceil (T / L)] (the integer [n]
    with [(n - 1) * L < T ≤ n * L]); it throws the 404 "page not found"
    exception, with no result, exactly when [P < 1] or [P > totalPages], and
    otherwise returns [{totalItems = T, totalPages, currentPage = P}].  When
    [T = 0] the page count is 0 and every [P ≥ 1] is rejected. *)
Theorem paginateResults_contract (T P L : Z) :
  0 ≤ T → 1 ≤ L →
  ∃ n : Z,
    ceil_div T L = Num n ∧
    (n - 1) * L < T ≤ n * L ∧
    (paginateResults T P L = Throw page_not_found ↔ P < 1 ∨ n < P) ∧
    (1 ≤ P ≤ n →
       paginateResults T P L =
         Ok {| Pagination.totalItems := T; Pagination.totalPages := Num n;
              Pagination.currentPage := P |}) ∧
    (T = 0 →
       n = 0 ∧ (1 ≤ P → paginateResults T P L = Throw page_not_found)).
Proof.
  intros HT HL. exists (- ((- T) `div` L)).
  pose proof (ceil_div_bounds T L HL) as Hb. cbv zeta in Hb.
  assert (Hpag : ∀ Q, paginateResults T Q L =
    if (Q <? 1) || bool_decide (- ((- T) `div` L) < Q)
    then Throw page_not_found
    else Ok {| Pagination.totalItems := T;
               Pagination.totalPages := Num (- ((- T) `div` L));
               Pagination.currentPage := Q |}).
  { intros Q. unfold paginateResults. by rewrite ceil_div_pos. }
  split_and!.
  - by apply ceil_div_pos.
  - lia.
  - lia.
  - rewrite Hpag. split.
    + destruct (Z.ltb_spec P 1); [auto |].
      case_bool_decide; [auto | done].
    + intros [H | H].
      * by rewrite (proj2 (Z.ltb_lt _ _) H).
      * rewrite (bool_decide_eq_true_2 _ H). by rewrite orb_true_r.
  - intros [H1 H2]. rewrite Hpag.
    rewrite (proj2 (Z.ltb_ge _ _) H1).
    by rewrite bool_decide_eq_false_2 by lia.
  - intros ->.
    assert (Hn : - ((- 0) `div` L) = 0) by (by rewrite Z.opp_0, Zdiv_0_l).
    split; [done |]. intros HP. rewrite Hpag, Hn.
    rewrite (bool_decide_eq_true_2 (0 < P)) by lia.
    by rewrite orb_true_r.
Qed.

Lemma paginateResults_contract_witness :
  0 ≤ 25 ∧ 1 ≤ 10 ∧
  ∃ n : Z,
    ceil_div 25 10 = Num n ∧
    (n - 1) * 10 < 25 ≤ n * 10 ∧
    (paginateResults 25 3 10 = Throw page_not_found ↔ 3 < 1 ∨ n < 3) ∧
    (1 ≤ 3 ≤ n →
       paginateResults 25 3 10 =
         Ok {| Pagination.totalItems := 25; Pagination.totalPages := Num n;
              Pagination.currentPage := 3 |}) ∧
    (25 = 0 →
       n = 0 ∧ (1 ≤ 3 → paginateResults 25 3 10 = Throw page_not_found)).
Proof.
  split; [lia |]. split; [lia |].
  apply (paginateResults_contract 25 3 10); lia.
Defined.


(** ** The listing: [findAll] *)

Lemma filter_all (l : list Recipe) : filter (λ _ : Recipe, true = true) l = l.
Proof.
  induction l as [| r l IH]; [done |].
  rewrite filter_cons. case_decide; [by rewrite IH | done].
Qed.

(** [findAll] in one piece: the key is recorded first, the count is taken
    and the page checked, and only then does the cached payload count. *)
Lemma findAll_unfold (page limit : Z) (s : service) :
  findAll page limit s =
    let k := generateCacheKey page limit in
    let s1 := with_cacheKey k s in
    match paginateResults (count s) page limit with
    | Throw e => (Throw e, s1)
    | Ok _ =>
        match cacheManager s !! k with
        | Some cached => (Ok cached, s1)
        | None =>
            let d :=
              {| page := page;
                 totalPages := ceil_div (count s) limit;
                 totalRecipes := count s;
                 data :=
                   exec_query
                     {| conditions := λ _, true;
                        skip_option := Some ((page - 1) * limit);
                        limit_option := Some limit;
                        sort_option := Some (-1);
                        select_option := minus_public_id;
                        populate_option := Some minus_public_id |}
                     (RecipeEntity s) (CategoryEntity s) |} in
            (Ok d, with_cacheManager (<[k := d]> (cacheManager s)) s1)
        end
    end.
Proof.
  unfold findAll, paginateResults, count, bind, modify, gets, cache_get,
    countDocuments, throw.
  cbn -[generateCacheKey ceil_div js_gt exec_query Z.ltb].
  destruct ((page <? 1) || js_gt page _); [done |].
  destruct (cacheManager s !! generateCacheKey page limit); done.
Qed.

Lemma paginate_throws (T page limit : Z) (e : exn) :
  paginateResults T page limit = Throw e → e = page_not_found.
Proof.
  unfold paginateResults. destruct (_ || _); congruence.
Qed.

Lemma paginate_rejects_iff (T page limit : Z) :
  paginateResults T page limit = Throw page_not_found ↔
  page < 1 ∨ js_gt page (ceil_div T limit) = true.
Proof.
  unfold paginateResults.
  destruct (Z.ltb_spec page 1) as [Hlt | Hge]; cbn [orb].
  - split; auto.
  - destruct (js_gt page (ceil_div T limit)); split; try done.
    + auto.
    + intros [? | ?]; [lia | done].
Qed.

(** C2.  On every call [findAll] takes the count anew and checks the page
    against [ceil (count / limit)] before it returns anything: with an entry
    already cached under the key of [(page, limit)], the call throws the 404
    "page not found" exception exactly when the pagination check of the
    current count rejects the page, i.e. when [page < 1] or
    [page > totalPages]; the entry is returned only when the check passes. *)
Theorem findAll_validates_on_hit (page limit : Z) (s : service)
    (cached : recipePageData) :
  cacheManager s !! generateCacheKey page limit = Some cached →
  (fst (findAll page limit s) = Throw page_not_found ↔
     paginateResults (count s) page limit = Throw page_not_found) ∧
  (page < 1 ∨ js_gt page (ceil_div (count s) limit) = true →
     fst (findAll page limit s) = Throw page_not_found) ∧
  (fst (findAll page limit s) = Ok cached ↔
     is_ok (paginateResults (count s) page limit) = true).
Proof.
  intros Hhit. rewrite findAll_unfold. cbv zeta. rewrite Hhit.
  destruct (paginateResults (count s) page limit) as [p | e] eqn:Hp; cbn.
  - split_and!; try done.
    intros Hbad. apply paginate_rejects_iff in Hbad. congruence.
  - pose proof (paginate_throws _ _ _ _ Hp) as ->. split_and!; done.
Qed.

Lemma findAll_validates_on_hit_witness :
  ∃ cached,
    cacheManager one_left !! generateCacheKey 2 1 = Some cached ∧
    fst (findAll 2 1 one_left) = Throw page_not_found.
Proof.
  destruct (cacheManager one_left !! generateCacheKey 2 1)
    as [cached |] eqn:Hhit.
  - exists cached. split; [done |].
    apply (findAll_validates_on_hit 2 1 one_left cached Hhit).
    right. reflexivity.
  - vm_compute in Hhit. discriminate.
Defined.

Lemma render_listed (cats : list Category) (q : Query) (r : Recipe) :
  select_option q = minus_public_id →
  populate_option q = Some minus_public_id →
  render cats q r = listed cats r.
Proof. unfold render. by intros -> ->. Qed.

Lemma listed_no_public_id (cats : list Category) (r : Recipe) :
  doc_public_id (listed cats r) = None ∧ category_joined (listed cats r).
Proof.
  split; [done |]. eexists. split; [done |].
  intros c'. destruct (findCategory cats (category r)); [| done].
  by intros [= <-].
Qed.

(** Whatever a query with [.select('-public_id')] returns has no asset id;
    joining the category does not bring it back. *)
Lemma exec_query_select_minus (q : Query) (recipes : list Recipe)
    (cats : list Category) :
  select_option q = minus_public_id →
  Forall (λ d, doc_public_id d = None) (exec_query q recipes cats).
Proof.
  intros Hsel. unfold exec_query. apply Forall_fmap, Forall_forall.
  intros r _. unfold render, compose. rewrite Hsel.
  unfold apply_populate. cbn. by destruct (populate_option q).
Qed.

(** C4.  On a cache miss with a page that passes the check, [findAll] runs
    the query with [skip = (page - 1) * limit] and [limit = limit], sorted by
    [createdAt] descending, the category joined, [public_id] projected away
    from the recipe and from the joined category; it stores the payload
    [{page, totalPages, totalRecipes, data}] in the cache under the key of
    [(page, limit)], records that key, and returns the same payload.  For
    [limit ≥ 1] the data is the slice of the newest-first ordering. *)
Theorem findAll_miss_queries_and_caches (page limit : Z) (s : service) :
  cacheManager s !! generateCacheKey page limit = None →
  is_ok (paginateResults (count s) page limit) = true →
  let key := generateCacheKey page limit in
  let recipes :=
    exec_query
      {| conditions := λ _, true;
         skip_option := Some ((page - 1) * limit);
         limit_option := Some limit;
         sort_option := Some (-1);
         select_option := minus_public_id;
         populate_option := Some minus_public_id |}
      (RecipeEntity s) (CategoryEntity s) in
  let payload :=
    {| page := page;
       totalPages := ceil_div (count s) limit;
       totalRecipes := count s;
       data := recipes |} in
  let newest_first := merge_sort newer_first (RecipeEntity s) in
  findAll page limit s =
    (Ok payload,
     with_cacheManager (<[key := payload]> (cacheManager s))
       (with_cacheKey key s)) ∧
  cacheManager (snd (findAll page limit s)) !! key = Some payload ∧
  cacheKey (snd (findAll page limit s)) = key ∧
  (1 ≤ limit →
     recipes =
       listed (CategoryEntity s) <$>
         take (Z.to_nat limit)
           (drop (Z.to_nat ((page - 1) * limit)) newest_first)) ∧
  StronglySorted newer_first newest_first ∧
  newest_first ≡ₚ RecipeEntity s ∧
  Forall (λ d, doc_public_id d = None ∧ category_joined d) recipes.
Proof.
  intros Hmiss Hvalid. cbv zeta.
  assert (Hrun : findAll page limit s = _) by apply findAll_unfold.
  cbv zeta in Hrun. rewrite Hmiss in Hrun.
  destruct (paginateResults (count s) page limit); [| done].
  rewrite Hrun. cbn [fst snd with_cacheManager with_cacheKey cacheManager
    cacheKey].
  split_and!.
  - done.
  - apply lookup_insert_eq.
  - done.
  - intros Hlimit. unfold exec_query.
    cbn [conditions skip_option limit_option sort_option apply_sort
      apply_skip apply_limit].
    rewrite filter_all. change (-1 <? 0) with true. cbn match.
    case_decide; [lia |].
    rewrite Z.abs_eq by lia. apply list_fmap_ext. intros i r _.
    by apply render_listed.
  - apply StronglySorted_merge_sort; apply _.
  - apply merge_sort_Permutation.
  - unfold exec_query. apply Forall_fmap, Forall_forall. intros r _.
    unfold compose. rewrite render_listed by done.
    apply listed_no_public_id.
Qed.

Lemma findAll_miss_queries_and_caches_witness :
  cacheManager two_recipes !! generateCacheKey 2 1 = None ∧
  data <$> cacheManager (snd (findAll 2 1 two_recipes)) !! generateCacheKey 2 1
    = Some [listed [postres] flan].
Proof.
  split; [reflexivity |].
  pose proof (findAll_miss_queries_and_caches 2 1 two_recipes
                eq_refl eq_refl) as H.
  cbv zeta in H. destruct H as (_ & -> & _). reflexivity.
Defined.

(** ** The cache handling of the writes *)

Lemma invalidate_eq (s : service) : invalidate s = (Ok (), invalidated s).
Proof.
  unfold invalidated, invalidate, bind, gets, ret, deleteCacheByKey,
    cache_del, modify.
  cbn. by destruct (bool_decide (cacheKey s = "")).
Qed.

Lemma invalidated_unfold (s : service) :
  invalidated s =
    if bool_decide (cacheKey s = "") then s
    else with_cacheKey ""
           (with_cacheManager (delete (cacheKey s) (cacheManager s)) s).
Proof.
  unfold invalidated, invalidate, bind, gets, ret, deleteCacheByKey,
    cache_del, modify.
  cbn. by destruct (bool_decide (cacheKey s = "")).
Qed.

Lemma invalidated_cacheKey (s : service) : cacheKey (invalidated s) = "".
Proof.
  rewrite invalidated_unfold. case_bool_decide; done.
Qed.

Lemma invalidated_cacheManager (s : service) :
  cacheManager (invalidated s) =
    if bool_decide (cacheKey s = "") then cacheManager s
    else delete (cacheKey s) (cacheManager s).
Proof. rewrite invalidated_unfold. by case_bool_decide. Qed.

Lemma invalidated_store (s : service) :
  RecipeEntity (invalidated s) = RecipeEntity s ∧
  CategoryEntity (invalidated s) = CategoryEntity s ∧
  console (invalidated s) = console s.
Proof. rewrite invalidated_unfold. by case_bool_decide. Qed.

Lemma invalidated_idemp (s : service) : cacheKey s = "" → invalidated s = s.
Proof.
  intros H. rewrite invalidated_unfold. by rewrite bool_decide_eq_true_2.
Qed.

(** Every entry but the tracked one is left as it was. *)
Lemma invalidated_frame (s : service) (k : string) :
  k ≠ cacheKey s → cacheManager (invalidated s) !! k = cacheManager s !! k.
Proof.
  intros Hk. rewrite invalidated_cacheManager.
  case_bool_decide; [done |]. by rewrite lookup_delete_ne.
Qed.

Ltac outcomes :=
  repeat match goal with
    | |- context [match ?o with Resolved _ => _ | Rejected _ => _ end] =>
        destruct o eqn:?
    end.

(** [create]: the cache handling comes first and stays, whatever follows. *)
Lemma create_spec (dto : CreateRecipeDto) (image : option File)
    (fx : effects) (s : service) :
  let s' := snd (create dto image fx s) in
  cacheKey s' = "" ∧
  cacheManager s' = cacheManager (invalidated s) ∧
  CategoryEntity s' = CategoryEntity s ∧
  match fst (create dto image fx s) with
  | Throw e =>
      e = creation_failed ∧
      RecipeEntity s' = RecipeEntity s ∧
      ∃ cause, console s' = console s ++ [cause]
  | Ok w =>
      w = {| message := "Receta creada correctamente";
             written_name := Some (create_name dto) |} ∧
      console s' = console s
  end.
Proof.
  pose proof (invalidated_cacheKey s) as Hk.
  pose proof (invalidated_store s) as (Hr & Hc & Hl).
  unfold create, try_catch, bind. rewrite invalidate_eq.
  unfold image_path, not_awaited, save, bind, await, console_log, modify,
    throw, ret.
  destruct image as [image |]; cbn; outcomes; cbn.
  all: rewrite ?Hl; split_and!; eauto.
Qed.

(** What [create] does when the pieces of its body settle one way or the
    other. *)
Lemma create_upload_rejected (dto : CreateRecipeDto) (image : File)
    (fx : effects) (s : service) (cause : string) :
  uploadImage fx (path image) "recipes" = Rejected cause →
  create dto (Some image) fx s =
    (Throw creation_failed,
     with_console (console s ++ [Failure cause]) (invalidated s)).
Proof.
  intros Hup. pose proof (invalidated_store s) as (_ & _ & Hl).
  unfold create, try_catch, bind. rewrite invalidate_eq.
  unfold image_path, bind, await, console_log, modify, throw, ret.
  cbn. rewrite Hup. cbn. by rewrite Hl.
Qed.

(** The promise of [save] is dropped, so its rejection is neither caught nor
    logged, and the caller is told the recipe was created. *)
Lemma create_save_rejected (dto : CreateRecipeDto) (image : File)
    (fx : effects) (s : service) (a : UploadApiResponse) (cause : string) :
  uploadImage fx (path image) "recipes" = Resolved a →
  unlink fx (path image) = Resolved () →
  store_write fx = Rejected cause →
  create dto (Some image) fx s =
    (Ok {| message := "Receta creada correctamente";
           written_name := Some (create_name dto) |},
     invalidated s).
Proof.
  intros Hup Hun Hst.
  unfold create, try_catch, bind. rewrite invalidate_eq.
  unfold image_path, not_awaited, save, bind, await, console_log, modify,
    throw, ret.
  cbn. rewrite Hup, Hun, Hst. done.
Qed.

(** C6.  Claimed: any failure during the upload or during persistence of
    the new recipe is reported as the generic creation failure.  The code
    does not await [newRecipe.save()]: with the upload accepted and the
    store rejecting the write, [create] answers "Receta creada
    correctamente", logs nothing and stores nothing. *)
Theorem create_persistence_failure_reported_as_success :
  create sancocho_dto (Some upload_jpg) write_rejected two_recipes =
    (Ok {| message := "Receta creada correctamente";
           written_name := Some "Sancocho" |},
     two_recipes).
Proof. reflexivity. Qed.

(** C9.  [create] does not restore the cache when it fails: whenever it
    reports the generic creation failure, the tracked entry is gone from
    the cache, the slot is empty, and nothing was stored. *)
Theorem create_failure_keeps_invalidation (dto : CreateRecipeDto)
    (image : option File) (fx : effects) (s s' : service) (e : exn) :
  create dto image fx s = (Throw e, s') →
  e = creation_failed ∧
  cacheKey s' = "" ∧
  (cacheKey s ≠ "" →
     cacheManager s' = delete (cacheKey s) (cacheManager s) ∧
     cacheManager s' !! cacheKey s = None) ∧
  (cacheKey s = "" → cacheManager s' = cacheManager s) ∧
  RecipeEntity s' = RecipeEntity s.
Proof.
  intros Hrun. pose proof (create_spec dto image fx s) as Hspec.
  rewrite Hrun in Hspec. cbn in Hspec.
  destruct Hspec as (Hk & Hc & _ & -> & Hr & _).
  rewrite invalidated_cacheManager in Hc.
  split_and!; try done.
  - intros Hne. rewrite bool_decide_eq_false_2 in Hc by done.
    rewrite Hc. split; [done |]. apply lookup_delete_eq.
  - intros Heq. by rewrite bool_decide_eq_true_2 in Hc.
Qed.

Lemma create_failure_keeps_invalidation_witness :
  cacheKey both_listed = generateCacheKey 1 1 ∧
  is_Some (cacheManager both_listed !! generateCacheKey 1 1) ∧
  let '(r, s') :=
    create sancocho_dto (Some upload_jpg) upload_rejected both_listed in
  r = Throw creation_failed ∧
  cacheKey s' = "" ∧
  cacheManager s' !! generateCacheKey 1 1 = None.
Proof.
  split; [reflexivity |]. split; [by eexists |].
  destruct (create sancocho_dto (Some upload_jpg) upload_rejected both_listed)
    as [r s'] eqn:Hrun.
  assert (Hr : ∃ e, r = Throw e).
  { apply (f_equal fst) in Hrun. vm_compute in Hrun. by eexists. }
  destruct Hr as [e ->].
  destruct (create_failure_keeps_invalidation _ _ _ _ _ _ Hrun)
    as (-> & Hk & Hdel & _).
  split; [done |]. split; [done |].
  apply (Hdel ltac:(done)).
Defined.

Lemma findById_eq (id : ObjectId) (s : service) :
  findById id s =
    (Ok (head (filter (λ r, by_id id r = true) (RecipeEntity s))), s).
Proof. done. Qed.

Lemma update_spec (id : ObjectId) (dto : UpdateRecipeDto)
    (image : option File) (fx : effects) (s : service) :
  let s' := snd (update id dto image fx s) in
  match head (filter (λ r, by_id id r = true) (RecipeEntity s)) with
  | None => update id dto image fx s = (Throw recipe_not_found, s)
  | Some _ =>
      cacheKey s' = "" ∧
      cacheManager s' = cacheManager (invalidated s) ∧
      fst (update id dto image fx s) ≠ Throw recipe_not_found
  end.
Proof.
  pose proof (invalidated_cacheKey s) as Hk. cbv zeta.
  destruct (update id dto image fx s) as [r s'] eqn:Hrun. revert Hrun.
  unfold update. unfold bind at 1. rewrite findById_eq.
  destruct (head _) as [recipeFound |]; [| done].
  unfold bind at 1. rewrite invalidate_eq.
  unfold findByIdAndUpdate, bind, await, modify, throw, ret.
  destruct image as [image |]; cbn; outcomes; cbn; by intros [= <- <-].
Qed.

Lemma remove_spec (id : ObjectId) (fx : effects) (s : service) :
  let s' := snd (remove id fx s) in
  match head (filter (λ r, by_id id r = true) (RecipeEntity s)) with
  | None => remove id fx s = (Throw recipe_not_found, s)
  | Some _ =>
      cacheKey s' = "" ∧
      cacheManager s' = cacheManager (invalidated s) ∧
      fst (remove id fx s) ≠ Throw recipe_not_found
  end.
Proof.
  pose proof (invalidated_cacheKey s) as Hk. cbv zeta.
  destruct (remove id fx s) as [r s'] eqn:Hrun. revert Hrun.
  unfold remove. unfold bind at 1. rewrite findById_eq.
  destruct (head _) as [recipeFound |]; [| done].
  unfold bind at 1. rewrite invalidate_eq.
  unfold findByIdAndDelete, bind, await, modify, throw, ret.
  cbn; outcomes; cbn; by intros [= <- <-].
Qed.

(** ** Sequences of requests *)

Section request_properties.
Variable regex_i : string → string → bool.

Lemma fmapM_unfold {A B} (f : A → B) (m : M A) (s : service) :
  fmapM f m s =
    match m s with
    | (Ok a, s') => (Ok (f a), s')
    | (Throw e, s') => (Throw e, s')
    end.
Proof. done. Qed.

Lemma fmapM_snd {A B} (f : A → B) (m : M A) (s : service) :
  snd (fmapM f m s) = snd (m s).
Proof. rewrite fmapM_unfold. by destruct (m s) as [[a | e] s']. Qed.

Lemma fmapM_throw {A B} (f : A → B) (m : M A) (s : service) (e : exn) :
  fst (fmapM f m s) = Throw e ↔ fst (m s) = Throw e.
Proof.
  rewrite fmapM_unfold. destruct (m s) as [[a | e'] s']; cbn; [done |].
  split; by intros [= ->].
Qed.

Lemma serve_cons (rq : request) (rqs : list request) (s : service) :
  serve regex_i (rq :: rqs) s =
    ((rq, fst (handle regex_i rq s)) ::
       fst (serve regex_i rqs (snd (handle regex_i rq s))),
     snd (serve regex_i rqs (snd (handle regex_i rq s)))).
Proof.
  cbn [serve]. destruct (handle regex_i rq s) as [r s1]. cbn [fst snd].
  by destruct (serve regex_i rqs s1) as [log s2].
Qed.

(** A request that is neither a listing nor a write leaves the service as
    it was. *)
Lemma read_spec (rq : request) (s : service) :
  is_write rq = false → is_findAll rq = false →
  snd (handle regex_i rq s) = s.
Proof.
  destruct rq; try done; intros _ _; cbn [handle]; rewrite fmapM_snd.
  - unfold findOne, bind, exec_one, gets, ret, throw. cbn.
    by destruct (head _).
  - unfold searchByName, bind, exec, gets, ret. cbn.
    by destruct (_ =? _)%nat.
  - unfold getRecipesByCategory, bind, exec, gets, ret. cbn.
    by destruct (_ =? _)%nat.
Qed.

(** A list request records its key, keeps every entry the cache holds, and
    keeps the store. *)
Lemma findAll_effect (page limit : Z) (s : service) :
  let s' := snd (findAll page limit s) in
  cacheKey s' = generateCacheKey page limit ∧
  RecipeEntity s' = RecipeEntity s ∧
  CategoryEntity s' = CategoryEntity s ∧
  ∀ k v, cacheManager s !! k = Some v → cacheManager s' !! k = Some v.
Proof.
  rewrite findAll_unfold. cbv zeta.
  destruct (paginateResults _ _ _); [| done].
  destruct (cacheManager s !! generateCacheKey page limit) eqn:Hk; [done |].
  cbn -[generateCacheKey]. split_and!; try done.
  intros k v Hv. rewrite lookup_insert_ne; [done |]. congruence.
Qed.

(** A write either stops at the missing recipe, changing nothing, or goes
    through the cache handling. *)
Lemma write_spec (rq : request) (s : service) :
  is_write rq = true →
  let r := fst (handle regex_i rq s) in
  let s' := snd (handle regex_i rq s) in
  if reaches_invalidation rq s
  then cacheKey s' = "" ∧
       cacheManager s' = cacheManager (invalidated s) ∧
       invalidating rq r = true
  else s' = s ∧ r = Throw recipe_not_found ∧ invalidating rq r = false.
Proof.
  assert (Hinv : ∀ (rq : request) (r : result response),
    is_write rq = true → r ≠ Throw recipe_not_found →
    invalidating rq r = true).
  { intros rq' r Hw Hr. unfold invalidating. rewrite Hw. cbn.
    destruct r as [a | e]; [done |].
    rewrite bool_decide_eq_false_2; [done | congruence]. }
  destruct rq as [| | | | | dto image fx | id dto image fx | id fx];
    try done; intros _; cbv zeta; cbn [handle reaches_invalidation].
  - rewrite fmapM_snd.
    pose proof (create_spec dto image fx s) as (Hk & Hc & _ & Hr).
    split_and!; [done | done |]. apply Hinv; [done |].
    intros Hthrow. apply fmapM_throw in Hthrow. rewrite Hthrow in Hr.
    by destruct Hr as [[=] _].
  - rewrite fmapM_snd. pose proof (update_spec id dto image fx s) as H.
    cbv zeta in H. destruct (head _).
    + destruct H as (Hk & Hc & Hr). split_and!; [done | done |].
      apply Hinv; [done |]. intros Hthrow. by apply fmapM_throw in Hthrow.
    + rewrite fmapM_unfold, H. cbn. by split_and!.
  - rewrite fmapM_snd. pose proof (remove_spec id fx s) as H.
    cbv zeta in H. destruct (head _).
    + destruct H as (Hk & Hc & Hr). split_and!; [done | done |].
      apply Hinv; [done |]. intros Hthrow. by apply fmapM_throw in Hthrow.
    + rewrite fmapM_unfold, H. cbn. by split_and!.
Qed.

Lemma not_write_not_invalidating (rq : request) (r : result response) :
  is_write rq = false → invalidating rq r = false.
Proof. intros H. unfold invalidating. by rewrite H. Qed.

(** The slot holds the key of the last list request, answered or refused,
    unless a write has emptied it since. *)
Lemma cacheKey_last_requested (history : list request) (s0 : service) :
  cacheKey (snd (serve regex_i history s0)) =
    last_requested (cacheKey s0) (fst (serve regex_i history s0)).
Proof.
  revert s0. induction history as [| rq rqs IH]; intros s0; [done |].
  rewrite serve_cons. cbn [fst snd last_requested]. rewrite IH. f_equal.
  destruct (is_findAll rq) eqn:Hf.
  - destruct rq as [p l | | | | | | |]; try done.
    cbn [handle]. rewrite fmapM_snd. apply findAll_effect.
  - destruct (is_write rq) eqn:Hw.
    + pose proof (write_spec rq s0 Hw) as H. cbv zeta in H.
      destruct (reaches_invalidation rq s0).
      * destruct H as (-> & _ & ->). by destruct rq.
      * destruct H as (-> & _ & ->). by destruct rq.
    + rewrite read_spec by done.
      rewrite not_write_not_invalidating by done. by destruct rq.
Qed.

(** C3 (amended).  A write changes the cache in one place at most: the
    entry under the key held in the slot, which is the key of the last
    list request, whether that request was answered with a page or
    refused, unless a write has emptied the slot since.  A write that gets
    to its cache handling deletes exactly that entry when the slot is not
    empty and nothing otherwise; a write stopped by a missing recipe
    changes nothing; every other entry stays as it was. *)
Theorem write_deletes_tracked_entry_only (s0 : service)
    (history : list request) (w : request) :
  is_write w = true →
  let log := fst (serve regex_i history s0) in
  let s := snd (serve regex_i history s0) in
  let s' := snd (handle regex_i w s) in
  cacheKey s = last_requested (cacheKey s0) log ∧
  (∀ k, k ≠ cacheKey s → cacheManager s' !! k = cacheManager s !! k) ∧
  (reaches_invalidation w s = true → cacheKey s ≠ "" →
     cacheManager s' = delete (cacheKey s) (cacheManager s)) ∧
  (reaches_invalidation w s = true → cacheKey s = "" →
     cacheManager s' = cacheManager s) ∧
  (reaches_invalidation w s = false → s' = s).
Proof.
  intros Hw. cbv zeta.
  set (s := snd (serve regex_i history s0)).
  pose proof (write_spec w s Hw) as H. cbv zeta in H.
  split; [apply cacheKey_last_requested |].
  destruct (reaches_invalidation w s).
  - destruct H as (_ & Hc & _). rewrite Hc. split_and!; try done.
    + intros k Hk. by apply invalidated_frame.
    + intros _ Hne. rewrite invalidated_cacheManager.
      by rewrite bool_decide_eq_false_2.
    + intros _ Heq. by rewrite invalidated_idemp.
  - destruct H as (Hs & _). rewrite Hs. by split_and!.
Qed.

Lemma slot_stays_empty (mid : list request) (s : service) :
  Forall (λ rq, is_findAll rq = false) mid →
  cacheKey s = "" →
  cacheKey (snd (serve regex_i mid s)) = "".
Proof.
  intros Hmid. revert s.
  induction Hmid as [| rq rqs Hrq _ IH]; intros s Hs; [done |].
  rewrite serve_cons. cbn [snd]. apply IH.
  destruct (is_write rq) eqn:Hw.
  - pose proof (write_spec rq s Hw) as H. cbv zeta in H.
    destruct (reaches_invalidation rq s).
    + by destruct H as (? & _).
    + destruct H as (-> & _). done.
  - by rewrite read_spec.
Qed.

(** C8 (amended).  A write that gets to its cache handling leaves the slot
    empty; as long as no list request follows, answered or refused, the
    slot stays empty, and the next write deletes no cache entry. *)
Theorem slot_reset_then_nothing_deleted (s : service) (w1 : request)
    (mid : list request) (w2 : request) :
  is_write w1 = true →
  reaches_invalidation w1 s = true →
  Forall (λ rq, is_findAll rq = false) mid →
  is_write w2 = true →
  let s1 := snd (handle regex_i w1 s) in
  let s2 := snd (serve regex_i mid s1) in
  cacheKey s1 = "" ∧
  cacheKey s2 = "" ∧
  cacheManager (snd (handle regex_i w2 s2)) = cacheManager s2.
Proof.
  intros Hw1 Hreach Hmid Hw2. cbv zeta.
  pose proof (write_spec w1 s Hw1) as H1. cbv zeta in H1.
  rewrite Hreach in H1. destruct H1 as (Hk1 & _).
  pose proof (slot_stays_empty mid _ Hmid Hk1) as Hk2.
  split; [done |]. split; [done |].
  pose proof (write_spec w2
    (snd (serve regex_i mid (snd (handle regex_i w1 s)))) Hw2) as H2.
  cbv zeta in H2.
  destruct (reaches_invalidation w2 _).
  - destruct H2 as (_ & -> & _). by rewrite invalidated_idemp.
  - by destruct H2 as (-> & _).
Qed.

(** Requests that are not writes keep the store and every cache entry. *)
Lemma reads_keep_entries (mid : list request) (s : service) :
  Forall (λ rq, is_write rq = false) mid →
  let s' := snd (serve regex_i mid s) in
  RecipeEntity s' = RecipeEntity s ∧
  CategoryEntity s' = CategoryEntity s ∧
  ∀ k v, cacheManager s !! k = Some v → cacheManager s' !! k = Some v.
Proof.
  intros Hmid. revert s. cbv zeta.
  induction Hmid as [| rq rqs Hrq _ IH]; intros s; [done |].
  rewrite serve_cons. cbn [snd].
  destruct (IH (snd (handle regex_i rq s))) as (Hr & Hc & Hm).
  destruct (is_findAll rq) eqn:Hf.
  - destruct rq as [p l | | | | | | |]; try done.
    revert Hr Hc Hm. cbn [handle]. rewrite fmapM_snd. intros Hr Hc Hm.
    destruct (findAll_effect p l s) as (_ & Hr' & Hc' & Hm').
    rewrite Hr, Hc, Hr', Hc'. split_and!; [done | done |].
    intros k v Hv. by apply Hm, Hm'.
  - revert Hr Hc Hm. rewrite read_spec by done. auto.
Qed.

Lemma findAll_hit (page limit : Z) (s : service) (cached : recipePageData) :
  cacheManager s !! generateCacheKey page limit = Some cached →
  is_ok (paginateResults (count s) page limit) = true →
  findAll page limit s =
    (Ok cached, with_cacheKey (generateCacheKey page limit) s).
Proof.
  intros Hhit Hvalid. rewrite findAll_unfold. cbv zeta. rewrite Hhit.
  by destruct (paginateResults _ _ _).
Qed.

Lemma findAll_ok_cached (page limit : Z) (s s1 : service)
    (r : recipePageData) :
  findAll page limit s = (Ok r, s1) →
  cacheManager s1 !! generateCacheKey page limit = Some r.
Proof.
  rewrite findAll_unfold. cbv zeta.
  destruct (paginateResults _ _ _); [| done].
  destruct (cacheManager s !! generateCacheKey page limit) eqn:Hk.
  - by intros [= <- <-].
  - intros [= <- <-]. apply lookup_insert_eq.
Qed.

(** C5.  On a hit [findAll] returns the cached payload as it is, with no
    comparison against the count just taken.  Hence, once a call has
    returned a payload, a later call with the same arguments returns the
    same payload, however the store was changed from outside in between
    and whatever requests other than writes were served meanwhile, provided
    the page still passes the check. *)
Theorem findAll_repeat_returns_cached (page limit : Z) (s s1 : service)
    (r : recipePageData) (recipes' : list Recipe) (cats' : list Category)
    (mid : list request) :
  findAll page limit s = (Ok r, s1) →
  Forall (λ rq, is_write rq = false) mid →
  let key := generateCacheKey page limit in
  let s2 := snd (serve regex_i mid (with_store recipes' cats' s1)) in
  is_ok (paginateResults (Z.of_nat (length recipes')) page limit) = true →
  (∀ cached, cacheManager s !! key = Some cached → r = cached) ∧
  RecipeEntity s2 = recipes' ∧
  findAll page limit s2 = (Ok r, with_cacheKey key s2).
Proof.
  intros Hfirst Hmid key s2 Hvalid.
  pose proof (findAll_ok_cached _ _ _ _ _ Hfirst) as Hcached.
  destruct (reads_keep_entries mid (with_store recipes' cats' s1) Hmid)
    as (Hr & _ & Hkeep). fold s2 in Hr, Hkeep. cbn in Hr.
  split_and!.
  - intros cached Hhit. revert Hfirst. rewrite findAll_unfold. cbv zeta.
    fold key. rewrite Hhit.
    destruct (paginateResults (count s) page limit); [| done].
    congruence.
  - done.
  - apply findAll_hit.
    + by apply Hkeep.
    + unfold count. by rewrite Hr.
Qed.
End request_properties.

(** *** The single slot on concrete runs *)

(** C3, as stated, fails.  Two recipes, pages of one.  Both pages are listed
    and cached; a recipe is removed; page 1 is listed again and served;
    page 2 is requested and refused with 404, which still records its key.
    The next write deletes the old entry of page 2, not the entry of the page
    served last. *)
Lemma write_deletes_last_served_only_fails :
  ¬ write_deletes_last_served_only literal_i.
Proof.
  intros H.
  specialize (H [flan; arepa] [postres]
    [FindAll 2 1; FindAll 1 1; Remove "a" all_well; FindAll 1 1; FindAll 2 1]
    (Create sancocho_dto (Some upload_jpg) all_well) eq_refl
    (generateCacheKey 2 1)).
  cbv zeta in H. destruct H as (p & l & Hserved & Hk).
  - intros Heq. vm_compute in Heq. discriminate.
  - vm_compute in Hserved. injection Hserved as <- <-.
    vm_compute in Hk. discriminate.
Qed.

Lemma write_deletes_tracked_entry_only_witness :
  let s' := snd (handle literal_i (Remove "a" all_well) both_listed) in
  cacheKey both_listed = generateCacheKey 1 1 ∧
  is_Some (cacheManager both_listed !! generateCacheKey 1 1) ∧
  cacheManager s' !! generateCacheKey 1 1 = None ∧
  cacheManager s' !! generateCacheKey 2 1 =
    cacheManager both_listed !! generateCacheKey 2 1.
Proof.
  cbv zeta.
  destruct (write_deletes_tracked_entry_only literal_i two_recipes
              [FindAll 2 1; FindAll 1 1] (Remove "a" all_well) eq_refl)
    as (Hk & Hframe & Hdel & _).
  fold both_listed in Hk, Hframe, Hdel.
  split; [reflexivity |]. split; [by eexists |]. split.
  - rewrite Hdel; [| reflexivity | by rewrite Hk].
    rewrite Hk. apply lookup_delete_eq.
  - apply Hframe. by rewrite Hk.
Defined.

(** C8, as stated, fails.  After both pages were listed, a recipe is
    removed, which empties the slot.  Page 2 is then requested and refused
    with 404: no listing was served, yet the slot holds the key of page 2
    again, and the second removal deletes the entry cached under it. *)
Lemma rearmed_by_served_listing_only_fails :
  ¬ rearmed_by_served_listing_only literal_i.
Proof.
  intros H.
  specialize (H [flan; arepa] [postres] [FindAll 2 1; FindAll 1 1]
                (Remove "a" all_well) [FindAll 2 1] (Remove "b" all_well)).
  cbv zeta in H. fold two_recipes both_listed in H.
  specialize (H eq_refl eq_refl).
  assert (Hlog : Forall
    (λ entry, is_findAll (fst entry) && is_ok (snd entry) = false)
    (fst (serve literal_i [FindAll 2 1]
            (snd (handle literal_i (Remove "a" all_well) both_listed))))).
  { vm_compute. repeat constructor. }
  specialize (H Hlog eq_refl).
  apply (f_equal (λ m, m !! generateCacheKey 2 1)) in H.
  vm_compute in H. discriminate.
Qed.

Lemma slot_reset_then_nothing_deleted_witness :
  let s1 := snd (handle literal_i (Remove "a" all_well) both_listed) in
  let s2 :=
    snd (serve literal_i
           [FindOne "b"; Create sancocho_dto (Some upload_jpg) all_well;
            GetLatestRecipes 3] s1) in
  is_Some (cacheManager s2 !! generateCacheKey 2 1) ∧
  cacheKey s1 = "" ∧
  cacheKey s2 = "" ∧
  cacheManager (snd (handle literal_i (Remove "b" all_well) s2)) =
    cacheManager s2.
Proof.
  cbv zeta. split; [by eexists |].
  apply (slot_reset_then_nothing_deleted literal_i both_listed
           (Remove "a" all_well)
           [FindOne "b"; Create sancocho_dto (Some upload_jpg) all_well;
            GetLatestRecipes 3]
           (Remove "b" all_well)); try reflexivity.
  repeat constructor.
Defined.

Lemma findAll_repeat_returns_cached_witness :
  ∃ r : recipePageData,
    fst (findAll 1 1 two_recipes) = Ok r ∧
    data r = [listed [postres] arepa] ∧
    let s2 :=
      snd (serve literal_i [FindOne "a"; FindAll 2 1]
             (with_store [flan; arepa; sancocho] [postres]
                (snd (findAll 1 1 two_recipes)))) in
    fst (findAll 1 1 s2) = Ok r ∧
    fst (getLatestRecipes 1 s2) = Ok [hydrate sancocho].
Proof.
  set (r := {| page := 1; totalPages := Num 2; totalRecipes := 2;
               data := [listed [postres] arepa] |}).
  assert (Hfirst : findAll 1 1 two_recipes =
                     (Ok r, snd (findAll 1 1 two_recipes)))
    by reflexivity.
  exists r. split; [reflexivity |]. split; [reflexivity |].
  cbv zeta. split; [| reflexivity].
  destruct (findAll_repeat_returns_cached literal_i 1 1 two_recipes
              (snd (findAll 1 1 two_recipes)) r
              [flan; arepa; sancocho] [postres] [FindOne "a"; FindAll 2 1]
              Hfirst) as (_ & _ & ->); [| reflexivity | reflexivity].
  repeat constructor.
Defined.

(** ** Reads outside the cache *)

Lemma filter_none (P : Recipe → Prop) `{!∀ r, Decision (P r)}
    (l : list Recipe) :
  (∀ r, r ∈ l → ¬ P r) → filter P l = [].
Proof.
  induction l as [| r l IH]; intros Hnone; [done |].
  rewrite filter_cons. case_decide as HP.
  - destruct (Hnone r); [left | done].
  - apply IH. intros r' Hr'. apply Hnone. by right.
Qed.

(** The three reads on ids already cast. *)
Lemma empty_results_cast_ids (regex_i : string → string → bool)
    (id : ObjectId) (dto : SearchRecipeDto) (categoryId : ObjectId)
    (s : service) :
  ((∀ r, r ∈ RecipeEntity s → _id r ≠ id) →
   findOne id s = (Throw recipe_not_found, s)) ∧
  ((∀ r, r ∈ RecipeEntity s →
         regex_i (search_name dto) (name r) = false) →
   searchByName regex_i dto s =
     (Ok (Message "No se encontraron recetas con ese nombre."), s)) ∧
  ((∀ r, r ∈ RecipeEntity s → category r ≠ categoryId) →
   getRecipesByCategory categoryId s =
     (Ok (Message "No hay recetas en esta categoria"), s)).
Proof.
  split_and!.
  - intros Hid. unfold findOne, bind, exec_one, gets, exec_query. cbn.
    rewrite filter_none; [done |].
    intros r Hr. unfold by_id. rewrite bool_decide_eq_false_2; [done |].
    by apply Hid.
  - intros Hname. unfold searchByName, bind, exec, gets, exec_query. cbn.
    rewrite filter_none; [done |].
    intros r Hr. by rewrite Hname.
  - intros Hcat. unfold getRecipesByCategory, bind, exec, gets, exec_query.
    cbn. rewrite filter_none; [done |].
    intros r Hr. rewrite bool_decide_eq_false_2; [done |]. by apply Hcat.
Qed.

Lemma castId_some (castObjectId : string → option ObjectId)
    (value : string) (id : ObjectId) {A} (k : ObjectId → M A) (s : service) :
  castObjectId value = Some id →
  (let* x := castId castObjectId value in k x) s = k id s.
Proof. intros H. unfold bind, castId. by rewrite H. Qed.

Lemma castId_none (castObjectId : string → option ObjectId)
    (value : string) {A} (k : ObjectId → M A) (s : service) :
  castObjectId value = None →
  (let* x := castId castObjectId value in k x) s =
    (Throw (cast_failed value), s).
Proof. intros H. unfold bind, castId. by rewrite H. Qed.

(** C7 (amended).  The empty result is handled unevenly: [findOne] with a
    well-formed id no recipe has throws the 404 exception "La receta no
    existe!", whereas [searchByName] with a name nothing matches and
    [getRecipesByCategory] with a well-formed category id no recipe refers
    to both return normally, with an object carrying a message.  With a
    string the driver cannot cast to an ObjectId, [findOne] and
    [getRecipesByCategory] end in the driver's cast error instead, neither
    the 404 nor the message. *)
Theorem empty_result_asymmetry (castObjectId : string → option ObjectId)
    (regex_i : string → string → bool) (id : string)
    (dto : SearchRecipeDto) (categoryId : string) (s : service) :
  (∀ oid, castObjectId id = Some oid →
     (∀ r, r ∈ RecipeEntity s → _id r ≠ oid) →
     findOne_raw castObjectId id s = (Throw recipe_not_found, s)) ∧
  ((∀ r, r ∈ RecipeEntity s →
         regex_i (search_name dto) (name r) = false) →
   searchByName regex_i dto s =
     (Ok (Message "No se encontraron recetas con ese nombre."), s)) ∧
  (∀ cid, castObjectId categoryId = Some cid →
     (∀ r, r ∈ RecipeEntity s → category r ≠ cid) →
     getRecipesByCategory_raw castObjectId categoryId s =
       (Ok (Message "No hay recetas en esta categoria"), s)) ∧
  (castObjectId id = None →
   findOne_raw castObjectId id s = (Throw (cast_failed id), s)) ∧
  (castObjectId categoryId = None →
   getRecipesByCategory_raw castObjectId categoryId s =
     (Throw (cast_failed categoryId), s)).
Proof.
  split_and!.
  - intros oid Hcast Hid. unfold findOne_raw.
    rewrite (castId_some _ _ oid) by done.
    by apply (empty_results_cast_ids regex_i oid dto oid s).
  - apply (empty_results_cast_ids regex_i "" dto "" s).
  - intros cid Hcast Hcat. unfold getRecipesByCategory_raw.
    rewrite (castId_some _ _ cid) by done.
    by apply (empty_results_cast_ids regex_i cid dto cid s).
  - intros Hcast. unfold findOne_raw. by rewrite castId_none.
  - intros Hcast. unfold getRecipesByCategory_raw. by rewrite castId_none.
Qed.

Lemma empty_result_asymmetry_witness :
  findOne_raw hex24 "64B000000000000000000001" two_recipes =
    (Throw recipe_not_found, two_recipes) ∧
  searchByName literal_i {| search_name := "xyz-no-match" |} two_recipes =
    (Ok (Message "No se encontraron recetas con ese nombre."), two_recipes) ∧
  getRecipesByCategory_raw hex24 "64b000000000000000000002" two_recipes =
    (Ok (Message "No hay recetas en esta categoria"), two_recipes) ∧
  findOne_raw hex24 "zzz" two_recipes =
    (Throw (cast_failed "zzz"), two_recipes) ∧
  getRecipesByCategory_raw hex24 "zzz" two_recipes =
    (Throw (cast_failed "zzz"), two_recipes).
Proof.
  assert (Hnone : ∀ (P : Recipe → Prop),
    P flan → P arepa → ∀ r, r ∈ RecipeEntity two_recipes → P r).
  { intros P Hf Ha r Hr. cbn in Hr.
    repeat (apply elem_of_cons in Hr as [-> | Hr]; [done |]).
    by apply elem_of_nil in Hr. }
  destruct (empty_result_asymmetry hex24 literal_i
              "64B000000000000000000001"
              {| search_name := "xyz-no-match" |}
              "64b000000000000000000002" two_recipes)
    as (Hone & Hsearch & Hcat & _).
  destruct (empty_result_asymmetry hex24 literal_i "zzz"
              {| search_name := "xyz-no-match" |} "zzz" two_recipes)
    as (_ & _ & _ & Hone' & Hcat').
  split_and!.
  - apply (Hone "64b000000000000000000001" eq_refl). by apply Hnone.
  - apply Hsearch. by apply Hnone.
  - apply (Hcat "64b000000000000000000002" eq_refl). by apply Hnone.
  - by apply Hone'.
  - by apply Hcat'.
Defined.

(** C7, as stated, fails: "zzz" is the id of no recipe and the category of
    none, and it is not an ObjectId either, so [findOne] ends in the cast
    error of the driver, not in the 404. *)
Lemma absent_id_ends_in_not_found_fails :
  ¬ absent_id_ends_in_not_found hex24.
Proof.
  intros H. destruct (H two_recipes "zzz") as [Hone _].
  - intros r Hr. cbn in Hr.
    repeat (apply elem_of_cons in Hr as [-> | Hr]; [done |]).
    by apply elem_of_nil in Hr.
  - intros r Hr. cbn in Hr.
    repeat (apply elem_of_cons in Hr as [-> | Hr]; [done |]).
    by apply elem_of_nil in Hr.
  - vm_compute in Hone. discriminate.
Qed.

(** The same three calls when something is found. *)
Example findOne_found :
  fst (findOne "a" two_recipes) = Ok (listed [postres] flan).
Proof. reflexivity. Qed.
Example searchByName_found :
  fst (searchByName literal_i {| search_name := "FL" |} two_recipes) =
    Ok (Recipes [listed [postres] flan]).
Proof. reflexivity. Qed.

Lemma apply_limit_subseteq (o : option Z) (l : list Recipe) :
  apply_limit o l ⊆ l.
Proof.
  destruct o as [n |]; cbn; [| done].
  case_decide; [done |]. apply subseteq_take.
Qed.

(** C10.  [getLatestRecipes] runs its query with neither [select] nor
    [populate]: for every limit, what it returns are stored recipes as they
    are, newest first, each with its [public_id] present and its category
    left as a reference.  The documents of [findOne], [searchByName],
    [getRecipesByCategory] and of a [findAll] that queries the store carry no
    [public_id]. *)
Theorem getLatestRecipes_exposes_public_id (limit : Z) (s : service) :
  let latest :=
    apply_limit (Some limit) (merge_sort newer_first (RecipeEntity s)) in
  getLatestRecipes limit s = (Ok (hydrate <$> latest), s) ∧
  latest ⊆ RecipeEntity s ∧
  Forall (λ d, ∃ r, r ∈ RecipeEntity s ∧
                    doc_public_id d = Some (public_id r) ∧
                    doc_category d = Ref (category r))
    (hydrate <$> latest) ∧
  (∀ id d, fst (findOne id s) = Ok d → doc_public_id d = None) ∧
  (∀ regex_i dto l,
     fst (searchByName regex_i dto s) = Ok (Recipes l) →
     Forall (λ d, doc_public_id d = None) l) ∧
  (∀ categoryId l,
     fst (getRecipesByCategory categoryId s) = Ok (Recipes l) →
     Forall (λ d, doc_public_id d = None) l) ∧
  (∀ page limit' payload,
     cacheManager s !! generateCacheKey page limit' = None →
     fst (findAll page limit' s) = Ok payload →
     Forall (λ d, doc_public_id d = None) (data payload)).
Proof.
  cbv zeta.
  assert (Hsub : apply_limit (Some limit)
                   (merge_sort newer_first (RecipeEntity s))
                 ⊆ RecipeEntity s).
  { intros r Hr. apply apply_limit_subseteq in Hr.
    by rewrite merge_sort_Permutation in Hr. }
  split_and!.
  - unfold getLatestRecipes, exec, gets, exec_query.
    cbn [Q.sort Q.limit Q.find_all Q.find conditions skip_option
      limit_option sort_option select_option populate_option apply_sort
      apply_skip].
    rewrite filter_all. change (-1 <? 0) with true. cbn match.
    do 2 f_equal.
  - done.
  - apply Forall_fmap, Forall_forall. intros r Hr. exists r.
    split; [by apply Hsub | done].
  - intros id d. unfold findOne, bind, exec_one, gets, ret, throw.
    cbn [fst snd].
    destruct (head _) as [d' |] eqn:Hhead; [| done].
    intros [= <-]. apply head_Some_elem_of in Hhead.
    pose proof (exec_query_select_minus
      (Q.find (by_id id) |> Q.populate minus_public_id
                         |> Q.select minus_public_id)
      (RecipeEntity s) (CategoryEntity s) eq_refl) as Hall.
    by apply (proj1 (Forall_forall _ _) Hall).
  - intros regex_i dto l. unfold searchByName, bind, exec, gets, ret.
    cbn [fst snd]. destruct (_ =? _)%nat; [done |].
    intros [= <-]. by apply exec_query_select_minus.
  - intros categoryId l. unfold getRecipesByCategory, bind, exec, gets, ret.
    cbn [fst snd]. destruct (_ =? _)%nat; [done |].
    intros [= <-]. by apply exec_query_select_minus.
  - intros page limit' payload Hmiss. rewrite findAll_unfold. cbv zeta.
    rewrite Hmiss. destruct (paginateResults _ _ _); [| done].
    intros [= <-]. by apply exec_query_select_minus.
Qed.

Lemma getLatestRecipes_exposes_public_id_witness :
  getLatestRecipes 1 two_recipes = (Ok [hydrate arepa], two_recipes) ∧
  doc_public_id (hydrate arepa) = Some "recipes/arepa" ∧
  doc_category (hydrate arepa) = Ref "c2" ∧
  ∀ d, fst (findOne "b" two_recipes) = Ok d → doc_public_id d = None.
Proof.
  destruct (getLatestRecipes_exposes_public_id 1 two_recipes)
    as (Hrun & _ & _ & Hone & _).
  split; [exact Hrun |]. split; [reflexivity |]. split; [reflexivity |].
  apply Hone.
Defined.

Example getLatestRecipes_two :
  fst (getLatestRecipes 5 two_recipes) = Ok [hydrate arepa; hydrate flan] ∧
  doc_public_id (hydrate arepa) = Some "recipes/arepa" ∧
  doc_category (hydrate arepa) = Ref "c2".
Proof. by split_and!. Qed.

(** ** Side conditions of the model *)

(** A page that passes the check comes with a limit that is not negative,
    so the skip handed to the store is not negative either. *)
Lemma findAll_skip_nonneg (page limit : Z) (s : service) :
  is_ok (paginateResults (count s) page limit) = true →
  1 ≤ page ∧ 0 ≤ limit ∧ 0 ≤ (page - 1) * limit.
Proof.
  unfold paginateResults, count.
  set (T := Z.of_nat (length (RecipeEntity s))).
  assert (HT : 0 ≤ T) by lia.
  destruct (Z.ltb_spec page 1) as [| Hpage]; [done |]. cbn [orb].
  destruct (js_gt page (ceil_div T limit)) eqn:Hgt; [done |]. intros _.
  assert (Hlimit : 0 ≤ limit); [| split_and!; nia].
  destruct (decide (limit < 0)) as [Hneg |]; [| lia]. exfalso.
  unfold ceil_div in Hgt. case_decide; [lia |]. cbn in Hgt.
  apply bool_decide_eq_false in Hgt.
  assert (0 ≤ (- T) `div` limit).
  { rewrite <- (Z.opp_involutive limit), Z.div_opp_opp by lia.
    apply Z.div_pos; lia. }
  lia.
Qed.

(** Distinct (page, limit) pairs get distinct keys. *)
Lemma pretty_Z_no_underscore (z : Z) (s1 s2 : string) :
  pretty z ≠ s1 +:+ "_" +:+ s2.
Proof.
  assert (Hchar : ∀ n, pretty_N_char n ≠ "_"%char).
  { intros n. unfold pretty_N_char. by repeat case_match. }
  assert (Hgo : ∀ (n : N) (acc s1 s2 : string),
    (∀ t1 t2, acc ≠ t1 +:+ "_" +:+ t2) →
    pretty_N_go n acc ≠ s1 +:+ "_" +:+ s2).
  { intros n. induction (N.lt_wf_0 n) as [n _ IH]. intros acc t1 t2 Hacc.
    destruct (decide (n = 0)%N) as [-> | Hn].
    - rewrite pretty_N_go_0. apply Hacc.
    - rewrite pretty_N_go_step by lia. apply IH.
      + apply N.div_lt; lia.
      + intros u1 u2. destruct u1 as [| c u1]; cbn.
        * intros [= Hc _]. by apply Hchar in Hc.
        * intros [= _ Hrest]. by apply Hacc in Hrest. }
  assert (Hnil : ∀ t1 t2 : string, "" ≠ t1 +:+ "_" +:+ t2).
  { intros [| c t1] t2; done. }
  assert (HN : ∀ (n : N) (t1 t2 : string), pretty n ≠ t1 +:+ "_" +:+ t2).
  { intros n t1 t2. unfold pretty, pretty_N. case_decide.
    - by destruct t1 as [| c [| c' t1]].
    - by apply Hgo. }
  destruct z as [| p | p]; unfold pretty, pretty_Z.
  - by destruct s1 as [| c [| c' s1]].
  - apply HN.
  - destruct s1 as [| c s1]; cbn; [done |].
    intros [= _ Hrest]. by apply (HN (N.pos p)) in Hrest.
Qed.

Lemma append_underscore_inj (a1 a2 b1 b2 : string) :
  (∀ t1 t2, a1 ≠ t1 +:+ "_" +:+ t2) →
  (∀ t1 t2, a2 ≠ t1 +:+ "_" +:+ t2) →
  a1 +:+ "_" +:+ b1 = a2 +:+ "_" +:+ b2 → a1 = a2 ∧ b1 = b2.
Proof.
  revert a2. induction a1 as [| c a1 IH]; intros [| c' a2] H1 H2 Heq;
    simplify_eq/=.
  - done.
  - by destruct (H2 "" a2).
  - by destruct (H1 "" a1).
  - destruct (IH a2) as [-> ->]; [| | done | done].
    + intros t1 t2 ->. by apply (H1 (String c' t1) t2).
    + intros t1 t2 ->. by apply (H2 (String c' t1) t2).
Qed.

Lemma generateCacheKey_inj (page limit page' limit' : Z) :
  generateCacheKey page limit = generateCacheKey page' limit' →
  page = page' ∧ limit = limit'.
Proof.
  unfold generateCacheKey. intros Heq.
  apply (inj (String.append "recipes_list_page_")) in Heq.
  apply append_underscore_inj in Heq as [Hp Hl];
    [| intros; apply pretty_Z_no_underscore..].
  split; by apply (inj pretty).
Qed.

(** * Further properties *)

(** ** Page sizes that are not positive *)

Lemma ceil_div_negative (T L : Z) :
  0 ≤ T → L < 0 → ∃ n, ceil_div T L = Num n ∧ n ≤ 0.
Proof.
  intros HT HL. unfold ceil_div. case_decide; [lia |].
  eexists. split; [done |].
  assert (0 ≤ (- T) `div` L); [| lia].
  rewrite <- (Z.opp_involutive L), Z.div_opp_opp by lia.
  apply Z.div_pos; lia.
Qed.

(** X1.  A negative page size is refused for every page: the page count is
    then at most 0, so [paginateResults] throws the 404 whatever the page,
    and so does [findAll], which still records the key. *)
Theorem negative_limit_refused (page limit : Z) (s : service) :
  limit < 0 →
  (∀ T, 0 ≤ T → paginateResults T page limit = Throw page_not_found) ∧
  findAll page limit s =
    (Throw page_not_found, with_cacheKey (generateCacheKey page limit) s).
Proof.
  intros Hneg.
  assert (Hpag : ∀ T, 0 ≤ T →
    paginateResults T page limit = Throw page_not_found).
  { intros T HT. destruct (ceil_div_negative T limit HT Hneg) as (n & Hn & ?).
    unfold paginateResults. rewrite Hn. cbn [js_gt].
    destruct (Z.ltb_spec page 1); [done |].
    by rewrite bool_decide_eq_true_2 by lia. }
  split; [done |].
  rewrite findAll_unfold. cbv zeta. rewrite Hpag; [done |].
  unfold count. lia.
Qed.

Lemma negative_limit_refused_witness :
  paginateResults 5 1 (-2) = Throw page_not_found ∧
  fst (findAll 1 (-2) two_recipes) = Throw page_not_found.
Proof.
  destruct (negative_limit_refused 1 (-2) two_recipes) as [Hpag Hrun];
    [lia |].
  split; [apply Hpag; lia | by rewrite Hrun].
Defined.

(** X2.  A page size of zero makes the page count a division by zero,
    and the sign of the zero decides.  For [+0] the count is [Infinity] on a
    non-empty collection and [NaN] on an empty one: no page exceeds it, so
    every page from 1 on passes the check.  For [-0] the count is
    [-Infinity] on a non-empty collection, which every page exceeds, so
    every page is refused; on an empty collection it is [NaN] again.  Pages
    below 1 are refused in every case. *)
Theorem zero_limit_pages (T : Z) (page : jsint) :
  0 ≤ T →
  (∀ p l, paginateResults_js T (Int p) (Int l) = paginateResults T p l) ∧
  (jsint_value page < 1 →
     paginateResults_js T page (Int 0) = Throw page_not_found ∧
     paginateResults_js T page MinusZero = Throw page_not_found) ∧
  (1 ≤ jsint_value page →
     paginateResults_js T page (Int 0) =
       Ok {| Pagination.totalItems := T;
             Pagination.totalPages := if decide (T = 0) then NaN else PosInf;
             Pagination.currentPage := jsint_value page |}) ∧
  (0 < T → paginateResults_js T page MinusZero = Throw page_not_found) ∧
  (T = 0 → 1 ≤ jsint_value page →
     paginateResults_js T page MinusZero =
       Ok {| Pagination.totalItems := 0;
             Pagination.totalPages := NaN;
             Pagination.currentPage := jsint_value page |}).
Proof.
  intros HT. split_and!.
  - done.
  - intros Hpage. unfold paginateResults_js.
    by rewrite (proj2 (Z.ltb_lt _ _) Hpage).
  - intros Hpage. unfold paginateResults_js, ceil_div_js, ceil_div.
    rewrite (proj2 (Z.ltb_ge _ _) Hpage). cbn [orb].
    rewrite (decide_True (P := 0 = 0)) by done.
    destruct (decide (T = 0)) as [-> | Hne]; [done |].
    by rewrite (decide_True (P := 0 < T)) by lia.
  - intros Hpos. unfold paginateResults_js, ceil_div_js.
    rewrite (decide_True (P := 0 < T)) by done. cbn [js_gt].
    by rewrite orb_true_r.
  - intros -> Hpage. unfold paginateResults_js, ceil_div_js.
    by rewrite (proj2 (Z.ltb_ge _ _) Hpage).
Qed.

Lemma zero_limit_pages_witness :
  paginateResults_js 2 (Int 7) (Int 0) =
    Ok {| Pagination.totalItems := 2;
          Pagination.totalPages := PosInf;
          Pagination.currentPage := 7 |} ∧
  paginateResults_js 2 (Int 7) MinusZero = Throw page_not_found.
Proof.
  destruct (zero_limit_pages 2 (Int 7) ltac:(lia))
    as (_ & _ & Hplus & Hminus & _).
  split; [apply Hplus; cbn; lia | apply Hminus; lia].
Defined.

(** X3.  Whatever the cache holds, [findAll] is refused exactly when the
    pagination check of the current count refuses the page; a refused
    request changes nothing in the cache, the store or the log, but it has
    already put its key in the slot. *)
Theorem findAll_refused_records_key (page limit : Z) (s : service) :
  (fst (findAll page limit s) = Throw page_not_found ↔
     paginateResults (count s) page limit = Throw page_not_found) ∧
  (∀ e, fst (findAll page limit s) = Throw e →
     e = page_not_found ∧
     snd (findAll page limit s) =
       with_cacheKey (generateCacheKey page limit) s).
Proof.
  rewrite findAll_unfold. cbv zeta.
  destruct (paginateResults (count s) page limit) as [p | e'] eqn:Hp.
  - destruct (cacheManager s !! generateCacheKey page limit);
      cbn; split; by try split.
  - pose proof (paginate_throws _ _ _ _ Hp) as ->. cbn.
    split; [done |]. by intros e [= <-].
Qed.

Lemma findAll_refused_records_key_witness :
  fst (findAll 2 1 one_left) = Throw page_not_found ∧
  snd (findAll 2 1 one_left) =
    with_cacheKey (generateCacheKey 2 1) one_left.
Proof.
  destruct (findAll_refused_records_key 2 1 one_left) as [Hiff Hstate].
  assert (Hthrow : fst (findAll 2 1 one_left) = Throw page_not_found)
    by (apply Hiff; reflexivity).
  split; [exact Hthrow |]. by apply (Hstate page_not_found).
Defined.

(** ** The pages of a listing *)

Lemma paginate_ok_inv (T page limit : Z) (p : Pagination.t) :
  paginateResults T page limit = Ok p →
  1 ≤ page ∧ js_gt page (ceil_div T limit) = false.
Proof.
  unfold paginateResults.
  destruct (Z.ltb_spec page 1); [done |]. cbn [orb].
  by destruct (js_gt page (ceil_div T limit)).
Qed.

Lemma paginate_ok_intro (T page limit n : Z) :
  ceil_div T limit = Num n → 1 ≤ page ≤ n →
  is_ok (paginateResults T page limit) = true.
Proof.
  intros Hn [H1 H2]. unfold paginateResults. rewrite Hn. cbn [js_gt].
  rewrite (proj2 (Z.ltb_ge _ _) H1).
  by rewrite bool_decide_eq_false_2 by lia.
Qed.

(** The query of [findAll] for a positive page size: a slice of the
    newest-first ordering. *)
Lemma listing_query_slice (page limit : Z) (recipes : list Recipe)
    (cats : list Category) :
  1 ≤ limit →
  exec_query
    {| conditions := λ _, true;
       skip_option := Some ((page - 1) * limit);
       limit_option := Some limit;
       sort_option := Some (-1);
       select_option := minus_public_id;
       populate_option := Some minus_public_id |} recipes cats =
  listed cats <$>
    take (Z.to_nat limit)
      (drop (Z.to_nat ((page - 1) * limit))
         (merge_sort newer_first recipes)).
Proof.
  intros Hlimit. unfold exec_query.
  cbn [conditions skip_option limit_option sort_option apply_sort
    apply_skip apply_limit].
  rewrite filter_all. change (-1 <? 0) with true. cbn match.
  case_decide; [lia |].
  rewrite Z.abs_eq by lia. apply list_fmap_ext. intros i r _.
  by apply render_listed.
Qed.

(** X4.  A page that passes the check is never empty and never longer than
    the page size: on a miss with [limit ≥ 1], the data holds
    [min limit (count - (page - 1) * limit)] recipes, which is [limit] on
    every page before the last. *)
Theorem served_page_size (page limit : Z) (s s' : service)
    (d : recipePageData) :
  1 ≤ limit →
  cacheManager s !! generateCacheKey page limit = None →
  findAll page limit s = (Ok d, s') →
  Z.of_nat (length (data d)) = Z.min limit (count s - (page - 1) * limit) ∧
  1 ≤ Z.of_nat (length (data d)) ≤ limit ∧
  ∃ n, totalPages d = Num n ∧
       (page < n → Z.of_nat (length (data d)) = limit).
Proof.
  intros Hlimit Hmiss. rewrite findAll_unfold. cbv zeta. rewrite Hmiss.
  destruct (paginateResults (count s) page limit) as [p |] eqn:Hp; [| done].
  intros [= <- _]. cbn [data totalPages].
  apply paginate_ok_inv in Hp as [Hpage Hgt].
  rewrite ceil_div_pos in Hgt |- * by done. cbn [js_gt] in Hgt.
  apply bool_decide_eq_false in Hgt.
  pose proof (ceil_div_bounds (count s) limit Hlimit) as Hb. cbv zeta in Hb.
  set (n := - ((- count s) `div` limit)) in *.
  rewrite listing_query_slice by done.
  rewrite length_fmap, length_take, length_drop.
  rewrite (Permutation_length (merge_sort_Permutation _ _)).
  unfold count in *.
  split_and!; [nia | nia | nia |].
  exists n. split; [done |]. nia.
Qed.

Lemma served_page_size_witness :
  ∃ d s', findAll 2 1 two_recipes = (Ok d, s') ∧
          Z.of_nat (length (data d)) = 1.
Proof.
  destruct (findAll 2 1 two_recipes) as [[d | e] s'] eqn:Hrun;
    [| vm_compute in Hrun; discriminate].
  exists d, s'. split; [done |].
  destruct (served_page_size 2 1 two_recipes s' d ltac:(lia) eq_refl Hrun)
    as (_ & Hlen & _).
  lia.
Defined.

Lemma slices_cover {A} (l : list A) (L n : nat) :
  (0 < L)%nat → (length l ≤ n * L)%nat →
  seq 0 n ≫= (λ i, take L (drop (i * L) l)) = l.
Proof.
  intros HL. revert l. induction n as [| n IH]; intros l Hlen.
  - destruct l; [done | cbn in Hlen; lia].
  - cbn [seq]. rewrite bind_cons.
    transitivity (take L l ++ drop L l); [| apply take_drop]. f_equal.
    rewrite <- fmap_S_seq, list_fmap_bind.
    etrans; [| apply (IH (drop L l)); rewrite length_drop; lia].
    apply list_bind_ext; [| done]. intros i. unfold compose.
    by rewrite drop_drop.
Qed.

Lemma pages_cover_sorted (limit n : Z) (s : service) :
  1 ≤ limit →
  ceil_div (count s) limit = Num n →
  seq 1 (Z.to_nat n) ≫= (λ p, fresh_page (Z.of_nat p) limit s) =
    listed (CategoryEntity s) <$> merge_sort newer_first (RecipeEntity s).
Proof.
  intros Hlimit Hn.
  pose proof (ceil_div_bounds (count s) limit Hlimit) as Hb. cbv zeta in Hb.
  rewrite ceil_div_pos in Hn by done. injection Hn as Hn. rewrite Hn in Hb.
  set (sorted := merge_sort newer_first (RecipeEntity s)).
  assert (Hlen : length sorted = length (RecipeEntity s))
    by apply Permutation_length, merge_sort_Permutation.
  etrans; [| apply (slices_cover (listed (CategoryEntity s) <$> sorted)
                      (Z.to_nat limit) (Z.to_nat n));
               [lia | rewrite length_fmap, Hlen; unfold count in Hb; nia]].
  rewrite <- fmap_S_seq, list_fmap_bind.
  apply Forall_bind_ext, Forall_forall. intros i Hi.
  apply elem_of_seq in Hi. unfold compose, fresh_page.
  rewrite findAll_unfold. cbv zeta.
  change (cacheManager (with_cacheManager ∅ s)) with
    (∅ : gmap string recipePageData).
  rewrite lookup_empty.
  change (count (with_cacheManager ∅ s)) with (count s).
  pose proof (paginate_ok_intro (count s) (Z.of_nat (S i)) limit n) as Hok.
  rewrite ceil_div_pos in Hok by done. rewrite Hn in Hok.
  specialize (Hok eq_refl ltac:(lia)).
  destruct (paginateResults (count s) (Z.of_nat (S i)) limit); [| done].
  cbn [fst data]. rewrite listing_query_slice by done.
  change (RecipeEntity (with_cacheManager ∅ s)) with (RecipeEntity s).
  change (CategoryEntity (with_cacheManager ∅ s)) with (CategoryEntity s).
  fold sorted. rewrite fmap_take, fmap_drop. do 2 f_equal. nia.
Qed.

Lemma distinct_timestamps_inj (l : list Recipe) (x y : Recipe) :
  NoDup (createdAt <$> l) → x ∈ l → y ∈ l → createdAt x = createdAt y →
  x = y.
Proof.
  induction l as [| r l IH]; intros Hnd Hx Hy Heq.
  - by apply elem_of_nil in Hx.
  - rewrite fmap_cons in Hnd. apply NoDup_cons in Hnd as [Hr Hnd].
    apply elem_of_cons in Hx as [-> | Hx];
      apply elem_of_cons in Hy as [-> | Hy]; [done | | | by apply IH].
    + destruct Hr. rewrite Heq. by apply list_elem_of_fmap_2.
    + destruct Hr. rewrite <- Heq. by apply list_elem_of_fmap_2.
Qed.

(** X5.  When no two recipes share a timestamp, the pages of one page size
    tile the collection: for [limit ≥ 1] and [n] the page count, what pages
    1 to [n] get from the store, put end to end, is the collection newest
    first, each recipe listed once and none missing.  The timestamps being
    distinct, there is one newest-first order only, so the statement does
    not depend on how the store orders equal timestamps. *)
Theorem pages_tile_collection (limit n : Z) (s : service)
    (newest_first : list Recipe) :
  1 ≤ limit →
  ceil_div (count s) limit = Num n →
  NoDup (createdAt <$> RecipeEntity s) →
  newest_first ≡ₚ RecipeEntity s →
  StronglySorted newer_first newest_first →
  seq 1 (Z.to_nat n) ≫= (λ p, fresh_page (Z.of_nat p) limit s) =
    listed (CategoryEntity s) <$> newest_first.
Proof.
  intros Hlimit Hn Hdistinct Hperm Hsorted.
  rewrite (pages_cover_sorted limit n s Hlimit Hn). f_equal.
  apply (StronglySorted_unique_strong newer_first).
  - intros x y Hx Hy Hxy Hyx. rewrite merge_sort_Permutation in Hx.
    rewrite Hperm in Hy.
    apply (distinct_timestamps_inj (RecipeEntity s)); [done.. |].
    unfold newer_first in *. lia.
  - apply StronglySorted_merge_sort; apply _.
  - done.
  - by rewrite merge_sort_Permutation, Hperm.
Qed.

Lemma pages_tile_collection_witness :
  fresh_page 1 1 two_recipes ++ fresh_page 2 1 two_recipes =
    [listed [postres] arepa; listed [postres] flan].
Proof.
  transitivity
    (seq 1 (Z.to_nat 2) ≫= (λ p, fresh_page (Z.of_nat p) 1 two_recipes));
    [reflexivity |].
  rewrite (pages_tile_collection 1 2 two_recipes [arepa; flan]
             ltac:(lia) eq_refl).
  - reflexivity.
  - apply (bool_decide_unpack _). by vm_compute.
  - apply Permutation_swap.
  - repeat constructor. unfold newer_first. cbn. lia.
Defined.

(** ** Keys and the content of the cache *)

(** X6.  Two list requests that differ in page or page size, both being
    positive integers that JavaScript holds exactly, use different keys, so
    that neither reads nor changes the cache entry of the other. *)
Theorem other_pages_untouched (page limit page' limit' : Z) (s : service) :
  safe_positive page → safe_positive limit →
  safe_positive page' → safe_positive limit' →
  (page, limit) ≠ (page', limit') →
  generateCacheKey page limit ≠ generateCacheKey page' limit' ∧
  cacheManager (snd (findAll page limit s)) !! generateCacheKey page' limit' =
    cacheManager s !! generateCacheKey page' limit'.
Proof.
  intros _ _ _ _ Hne.
  assert (Hkey : generateCacheKey page limit ≠ generateCacheKey page' limit').
  { intros Heq. apply generateCacheKey_inj in Heq as [-> ->]. done. }
  split; [done |]. rewrite findAll_unfold. cbv zeta.
  destruct (paginateResults _ _ _); [| done].
  destruct (cacheManager s !! generateCacheKey page limit); [done |].
  cbn -[generateCacheKey]. by rewrite lookup_insert_ne.
Qed.

Lemma other_pages_untouched_witness :
  generateCacheKey 1 21 ≠ generateCacheKey 12 1 ∧
  cacheManager (snd (findAll 1 1 both_listed)) !! generateCacheKey 2 1 =
    cacheManager both_listed !! generateCacheKey 2 1.
Proof.
  split.
  - apply (other_pages_untouched 1 21 12 1 two_recipes);
      unfold safe_positive; try lia. by intros [=].
  - apply (other_pages_untouched 1 1 2 1 both_listed);
      unfold safe_positive; try lia. by intros [=].
Defined.

Lemma invalidated_lookup (s : service) (k : string) (d : recipePageData) :
  cacheManager (invalidated s) !! k = Some d → cacheManager s !! k = Some d.
Proof.
  rewrite invalidated_cacheManager. case_bool_decide; [done |].
  intros Hk. by apply lookup_delete_Some in Hk as [_ Hk].
Qed.

Lemma findAll_keeps_consistent (page limit : Z) (s : service) :
  cache_consistent s → cache_consistent (snd (findAll page limit s)).
Proof.
  intros Hs. rewrite findAll_unfold. cbv zeta.
  destruct (paginateResults _ _ _); [| done].
  destruct (cacheManager s !! generateCacheKey page limit) eqn:Hk; [done |].
  intros k d. cbn -[generateCacheKey exec_query].
  destruct (decide (generateCacheKey page limit = k)) as [<- | Hne].
  - rewrite lookup_insert_eq. intros [= <-]. cbn [data].
    split; [by exists limit |]. by apply exec_query_select_minus.
  - rewrite lookup_insert_ne by done. apply Hs.
Qed.

Lemma handle_keeps_consistent (regex_i : string → string → bool)
    (rq : request) (s : service) :
  cache_consistent s → cache_consistent (snd (handle regex_i rq s)).
Proof.
  intros Hs. destruct (is_findAll rq) eqn:Hf.
  - destruct rq as [p l | | | | | | |]; try done.
    cbn [handle]. rewrite fmapM_snd. by apply findAll_keeps_consistent.
  - destruct (is_write rq) eqn:Hw.
    + pose proof (write_spec regex_i rq s Hw) as H. cbv zeta in H.
      destruct (reaches_invalidation rq s).
      * destruct H as (_ & Hc & _). intros k d. rewrite Hc.
        intros Hk. by apply Hs, invalidated_lookup.
      * by destruct H as (-> & _).
    + by rewrite read_spec.
Qed.

Lemma serve_keeps_consistent (regex_i : string → string → bool)
    (rqs : list request) (s : service) :
  cache_consistent s → cache_consistent (snd (serve regex_i rqs s)).
Proof.
  revert s. induction rqs as [| rq rqs IH]; intros s Hs; [done |].
  rewrite serve_cons. cbn [snd]. by apply IH, handle_keeps_consistent.
Qed.

(** X7.  On a service started with an empty cache, whatever requests were
    handled before, the payload a list request returns, be it fresh or from
    the cache, names the page that was asked for, and none of its recipes
    carries a [public_id]. *)
Theorem listing_payload_matches_request (regex_i : string → string → bool)
    (recipes : list Recipe) (cats : list Category) (history : list request)
    (p l : Z) (d : recipePageData) :
  let s := snd (serve regex_i history (new_service recipes cats)) in
  fst (findAll p l s) = Ok d →
  page d = p ∧ Forall (λ doc, doc_public_id doc = None) (data d).
Proof.
  intros s.
  assert (Hs : cache_consistent s).
  { apply serve_keeps_consistent. intros k d'. cbn. by rewrite lookup_empty. }
  pose proof (findAll_keeps_consistent p l s Hs) as Hs'.
  destruct (findAll p l s) as [r s1] eqn:Hrun. cbn [fst snd] in *.
  intros ->. apply findAll_ok_cached in Hrun.
  destruct (Hs' _ _ Hrun) as [[l' Hkey] Hdata].
  split; [| done]. apply generateCacheKey_inj in Hkey. by destruct Hkey.
Qed.

Lemma listing_payload_matches_request_witness :
  ∃ d, fst (findAll 1 1 both_listed) = Ok d ∧ page d = 1.
Proof.
  destruct (findAll 1 1 both_listed) as [[d | e] s'] eqn:Hrun;
    [| vm_compute in Hrun; discriminate].
  exists d. split; [done |].
  apply (listing_payload_matches_request literal_i [flan; arepa] [postres]
           [FindAll 2 1; FindAll 1 1] 1 1 d).
  fold two_recipes both_listed. by rewrite Hrun.
Defined.

(** ** Looking a recipe up by id *)

Lemma found_elem (id : ObjectId) (s : service) (r : Recipe) :
  found id s = Some r → r ∈ RecipeEntity s ∧ _id r = id.
Proof.
  unfold found. intros H. apply head_Some_elem_of in H.
  apply list_elem_of_filter in H as [Hid Hr]. split; [done |].
  unfold by_id in Hid. by apply bool_decide_eq_true in Hid.
Qed.

Lemma found_none (id : ObjectId) (s : service) :
  (∀ r, r ∈ RecipeEntity s → _id r ≠ id) → found id s = None.
Proof.
  intros H. unfold found. rewrite filter_none; [done |].
  intros r Hr. unfold by_id. rewrite bool_decide_eq_false_2; [done |].
  by apply H.
Qed.

Lemma findOne_by_found (id : ObjectId) (s : service) :
  findOne id s =
    match found id s with
    | Some r => (Ok (listed (CategoryEntity s) r), s)
    | None => (Throw recipe_not_found, s)
    end.
Proof.
  unfold findOne, found, bind, exec_one, gets, exec_query. cbn.
  by destruct (filter _ (RecipeEntity s)).
Qed.

(** ** What [create] stores *)

Lemma create_resolved (dto : CreateRecipeDto) (image : File) (fx : effects)
    (s : service) (a : UploadApiResponse) :
  uploadImage fx (path image) "recipes" = Resolved a →
  unlink fx (path image) = Resolved () →
  store_write fx = Resolved () →
  create dto (Some image) fx s =
    (Ok {| message := "Receta creada correctamente";
           written_name := Some (create_name dto) |},
     with_RecipeEntity (RecipeEntity s ++ [created dto a fx])
       (invalidated s)).
Proof.
  intros Hup Hun Hst. pose proof (invalidated_store s) as (Hr & _ & _).
  unfold create, try_catch, bind. rewrite invalidate_eq.
  unfold image_path, not_awaited, save, bind, await, console_log, modify,
    throw, ret.
  cbn. rewrite Hup, Hun, Hst. cbn. by rewrite Hr.
Qed.

(** X8.  When the upload, the removal of the temporary file and the write
    to the store all go through, [create] answers with the success message
    and the name from the request, and the collection gains exactly one
    recipe, at its end: every field of the request as it came, the image
    URL and the asset id taken from the upload response, the id and the
    timestamp given by the store.  The recipes stored before, the categories
    and the log are left as they were. *)
Theorem create_stores_uploaded_recipe (dto : CreateRecipeDto) (file : File)
    (fx : effects) (s : service) (a : UploadApiResponse) :
  uploadImage fx (path file) "recipes" = Resolved a →
  unlink fx (path file) = Resolved () →
  store_write fx = Resolved () →
  let s' := snd (create dto (Some file) fx s) in
  fst (create dto (Some file) fx s) =
    Ok {| message := "Receta creada correctamente";
          written_name := Some (create_name dto) |} ∧
  RecipeEntity s' =
    RecipeEntity s ++
      [{| _id := new_id fx;
          name := create_name dto;
          description := create_description dto;
          ingredients := create_ingredients dto;
          steps := create_steps dto;
          image := secure_url a;
          public_id := upload_public_id a;
          category := create_category dto;
          country := create_country dto;
          createdAt := now fx |}] ∧
  count s' = count s + 1 ∧
  CategoryEntity s' = CategoryEntity s ∧
  console s' = console s.
Proof.
  intros Hup Hun Hst. cbv zeta.
  rewrite (create_resolved dto file fx s a Hup Hun Hst).
  pose proof (invalidated_store s) as (_ & Hc & Hl).
  cbn [fst snd]. split_and!; try done.
  unfold count. cbn. rewrite length_app. cbn. lia.
Qed.

Lemma create_stores_uploaded_recipe_witness :
  RecipeEntity
    (snd (create sancocho_dto (Some upload_jpg) all_well two_recipes)) =
  [flan; arepa;
   {| _id := "n";
      name := "Sancocho";
      description := "Sopa";
      ingredients := ["yuca"];
      steps := ["hervir"];
      image := "https://img/new.png";
      public_id := "recipes/new";
      category := "c1";
      country := Some "co";
      createdAt := 10 |}].
Proof.
  destruct (create_stores_uploaded_recipe sancocho_dto upload_jpg all_well
              two_recipes
              {| secure_url := "https://img/new.png";
                 upload_public_id := "recipes/new" |}
              eq_refl eq_refl eq_refl) as (_ & Hstore & _).
  exact Hstore.
Defined.

(** X9.  A recipe that [create] has stored under a fresh id is found by
    [findOne] under that id, listed without its asset id and with its
    category joined. *)
Theorem create_then_findOne (dto : CreateRecipeDto) (image : File)
    (fx : effects) (s : service) (a : UploadApiResponse) :
  uploadImage fx (path image) "recipes" = Resolved a →
  unlink fx (path image) = Resolved () →
  store_write fx = Resolved () →
  (∀ r, r ∈ RecipeEntity s → _id r ≠ new_id fx) →
  let s' := snd (create dto (Some image) fx s) in
  findOne (new_id fx) s' =
    (Ok (listed (CategoryEntity s) (created dto a fx)), s').
Proof.
  intros Hup Hun Hst Hfresh. cbv zeta.
  rewrite (create_resolved dto image fx s a Hup Hun Hst). cbn [snd].
  pose proof (invalidated_store s) as (_ & Hc & _).
  rewrite findOne_by_found. unfold found.
  cbn [RecipeEntity with_RecipeEntity].
  rewrite filter_app, filter_none.
  2: { intros r Hr. unfold by_id. rewrite bool_decide_eq_false_2; [done |].
       by apply Hfresh. }
  rewrite filter_cons, decide_True.
  2: { unfold by_id. by rewrite bool_decide_eq_true_2. }
  cbn. by rewrite Hc.
Qed.

Lemma create_then_findOne_witness :
  fst (findOne "n"
         (snd (create sancocho_dto (Some upload_jpg) all_well two_recipes))) =
  Ok (listed [postres]
        (created sancocho_dto
           {| secure_url := "https://img/new.png";
              upload_public_id := "recipes/new" |} all_well)).
Proof.
  assert (Hfresh : ∀ r, r ∈ RecipeEntity two_recipes → _id r ≠ "n").
  { intros r Hr. cbn in Hr.
    repeat (apply elem_of_cons in Hr as [-> | Hr]; [done |]).
    by apply elem_of_nil in Hr. }
  pose proof (create_then_findOne sancocho_dto upload_jpg all_well
                two_recipes
                {| secure_url := "https://img/new.png";
                   upload_public_id := "recipes/new" |}
                eq_refl eq_refl eq_refl Hfresh) as H.
  cbv zeta in H. apply (f_equal fst) in H. exact H.
Defined.

Lemma newest_first_head (l : list Recipe) (x : Recipe) :
  x ∈ l →
  (∀ y, y ∈ l → y = x ∨ createdAt y < createdAt x) →
  ∃ rest, merge_sort newer_first l = x :: rest.
Proof.
  intros Hx Hnewest.
  pose proof (StronglySorted_merge_sort newer_first l) as Hsorted.
  pose proof (merge_sort_Permutation newer_first l) as Hperm.
  destruct (merge_sort newer_first l) as [| h t] eqn:Hl.
  - rewrite <- Hperm in Hx. by apply elem_of_nil in Hx.
  - assert (Hh : h ∈ l) by (rewrite <- Hperm; left).
    destruct (Hnewest h Hh) as [-> | Hlt]; [by eexists |].
    rewrite <- Hperm in Hx. apply elem_of_cons in Hx as [-> | Hx]; [lia |].
    apply StronglySorted_inv in Hsorted as [_ Hall].
    rewrite Forall_forall in Hall. specialize (Hall x Hx).
    unfold newer_first in Hall. lia.
Qed.

(** X10.  A recipe that [create] has stored with a timestamp later than
    every other is the first of the latest recipes, whatever the limit, and
    the only one for limit 1. *)
Theorem create_then_latest (dto : CreateRecipeDto) (file : File)
    (fx : effects) (s : service) (a : UploadApiResponse) (limit : Z) :
  uploadImage fx (path file) "recipes" = Resolved a →
  unlink fx (path file) = Resolved () →
  store_write fx = Resolved () →
  (∀ r, r ∈ RecipeEntity s → createdAt r < now fx) →
  let s' := snd (create dto (Some file) fx s) in
  ∃ rest,
    fst (getLatestRecipes limit s') = Ok (hydrate (created dto a fx) :: rest) ∧
    (limit = 1 → rest = []).
Proof.
  intros Hup Hun Hst Hnow. cbv zeta.
  rewrite (create_resolved dto file fx s a Hup Hun Hst). cbn [snd].
  unfold getLatestRecipes, exec, gets, exec_query.
  cbn [fst Q.sort Q.limit Q.find_all Q.find conditions skip_option
    limit_option sort_option select_option populate_option apply_sort
    apply_skip apply_limit RecipeEntity with_RecipeEntity].
  rewrite filter_all. change (-1 <? 0) with true. cbn match.
  destruct (newest_first_head (RecipeEntity s ++ [created dto a fx])
              (created dto a fx)) as [rest ->].
  - apply elem_of_app. right. left.
  - intros y Hy. apply elem_of_app in Hy as [Hy | Hy].
    + right. by apply Hnow.
    + apply elem_of_cons in Hy as [-> | Hy]; [by left |].
      by apply elem_of_nil in Hy.
  - case_decide as Hzero.
    + eexists. split; [done |]. lia.
    + destruct (Z.to_nat (Z.abs limit)) as [| k] eqn:Hk; [lia |].
      cbn [take fmap list_fmap]. eexists. split; [done |].
      intros ->. assert (k = 0%nat) as -> by (cbn in Hk; lia).
      by rewrite take_0.
Qed.

Lemma create_then_latest_witness :
  ∃ rest,
    fst (getLatestRecipes 2
           (snd (create sancocho_dto (Some upload_jpg) all_well
                   two_recipes))) =
      Ok (hydrate (created sancocho_dto
                     {| secure_url := "https://img/new.png";
                        upload_public_id := "recipes/new" |} all_well)
          :: rest) ∧
    (2 = 1 → rest = []).
Proof.
  apply (create_then_latest sancocho_dto upload_jpg all_well two_recipes
           {| secure_url := "https://img/new.png";
              upload_public_id := "recipes/new" |} 2
           eq_refl eq_refl eq_refl).
  intros r Hr. cbn in Hr.
  repeat (apply elem_of_cons in Hr as [-> | Hr]; [by cbn |]).
  by apply elem_of_nil in Hr.
Defined.

(** X11.  Every failure of [create] before the recipe is built is caught:
    a request without a file, a rejected upload, a temporary file that
    cannot be removed.  The caller gets the generic creation failure, the
    cause goes to the log and nowhere else, and nothing is stored. *)
Theorem create_failures_are_wrapped (dto : CreateRecipeDto) (fx : effects)
    (s : service) :
  (∃ cause,
     create dto None fx s =
       (Throw creation_failed,
        with_console (console s ++ [Failure cause]) (invalidated s))) ∧
  (∀ file cause,
     uploadImage fx (path file) "recipes" = Rejected cause →
     create dto (Some file) fx s =
       (Throw creation_failed,
        with_console (console s ++ [Failure cause]) (invalidated s))) ∧
  (∀ file a cause,
     uploadImage fx (path file) "recipes" = Resolved a →
     unlink fx (path file) = Rejected cause →
     create dto (Some file) fx s =
       (Throw creation_failed,
        with_console (console s ++ [Failure cause]) (invalidated s))) ∧
  RecipeEntity (invalidated s) = RecipeEntity s.
Proof.
  pose proof (invalidated_store s) as (Hr & _ & Hl).
  split_and!; [| | | done].
  - eexists. unfold create, try_catch, bind. rewrite invalidate_eq.
    unfold image_path, console_log, modify, throw. cbn. by rewrite Hl.
  - intros file cause Hup. by apply create_upload_rejected.
  - intros file a cause Hup Hun.
    unfold create, try_catch, bind. rewrite invalidate_eq.
    unfold image_path, bind, await, console_log, modify, throw, ret.
    cbn. rewrite Hup, Hun. cbn. by rewrite Hl.
Qed.

Lemma create_failures_are_wrapped_witness :
  create sancocho_dto None all_well two_recipes =
    (Throw creation_failed,
     with_console
       [Failure "TypeError: Cannot read properties of undefined"]
       two_recipes) ∧
  create sancocho_dto (Some upload_jpg) upload_rejected two_recipes =
    (Throw creation_failed,
     with_console [Failure "cloudinary: 401"] two_recipes).
Proof.
  split.
  - reflexivity.
  - apply (proj1 (proj2 (create_failures_are_wrapped sancocho_dto
                           upload_rejected two_recipes))
             upload_jpg "cloudinary: 401" eq_refl).
Defined.

(** ** [update] and [remove] *)

Lemma missing_cast_id_changes_nothing (id : ObjectId)
    (dto : UpdateRecipeDto) (image : option File) (fx : effects)
    (s : service) :
  (∀ r, r ∈ RecipeEntity s → _id r ≠ id) →
  update id dto image fx s = (Throw recipe_not_found, s) ∧
  remove id fx s = (Throw recipe_not_found, s).
Proof.
  intros Hmissing. apply found_none in Hmissing. unfold found in Hmissing.
  pose proof (update_spec id dto image fx s) as Hu.
  pose proof (remove_spec id fx s) as Hr.
  cbv zeta in Hu, Hr. by rewrite Hmissing in Hu, Hr.
Qed.

(** X12.  [update] and [remove] stop at the lookup when it finds nothing:
    on a well-formed id no recipe has they throw the 404 "La receta no
    existe!", and on a string the driver cannot cast to an ObjectId they
    end in its cast error.  Either way the service is left exactly as it
    was, the cache and the slot included, and neither the image host nor
    the store is written to. *)
Theorem missing_recipe_changes_nothing
    (castObjectId : string → option ObjectId) (id : string)
    (dto : UpdateRecipeDto) (image : option File) (fx : effects)
    (s : service) :
  (∀ oid, castObjectId id = Some oid →
     (∀ r, r ∈ RecipeEntity s → _id r ≠ oid) →
     update_raw castObjectId id dto image fx s = (Throw recipe_not_found, s) ∧
     remove_raw castObjectId id fx s = (Throw recipe_not_found, s)) ∧
  (castObjectId id = None →
     update_raw castObjectId id dto image fx s =
       (Throw (cast_failed id), s) ∧
     remove_raw castObjectId id fx s = (Throw (cast_failed id), s)).
Proof.
  split.
  - intros oid Hcast Hmissing. unfold update_raw, remove_raw.
    rewrite !(castId_some _ _ oid) by done.
    by apply missing_cast_id_changes_nothing.
  - intros Hcast. unfold update_raw, remove_raw.
    by rewrite !castId_none.
Qed.

Lemma missing_recipe_changes_nothing_witness :
  remove_raw hex24 "64b000000000000000000001" all_well both_listed =
    (Throw recipe_not_found, both_listed) ∧
  remove_raw hex24 "zzz" all_well both_listed =
    (Throw (cast_failed "zzz"), both_listed).
Proof.
  pose (dto := {| update_name := None; update_description := None;
                  update_ingredients := None; update_steps := None;
                  update_country := None; update_category := None;
                  update_image := None; update_public_id := None |}).
  destruct (missing_recipe_changes_nothing hex24 "64b000000000000000000001"
              dto None all_well both_listed) as [Hmissing _].
  destruct (missing_recipe_changes_nothing hex24 "zzz" dto None all_well
              both_listed) as [_ Hcast].
  split; [| by apply Hcast].
  apply (Hmissing "64b000000000000000000001" eq_refl).
  intros r Hr. change (RecipeEntity both_listed) with [flan; arepa] in Hr.
  repeat (apply elem_of_cons in Hr as [-> | Hr]; [done |]).
  by apply elem_of_nil in Hr.
Defined.

(** The first recipe with a given id splits the collection. *)
Lemma first_by_id_split (id : ObjectId) (l : list Recipe) (r : Recipe)
    (f : Recipe → Recipe) :
  head (filter (λ x, by_id id x = true) l) = Some r →
  ∃ l1 l2,
    l = l1 ++ r :: l2 ∧
    _id r = id ∧
    (∀ x, x ∈ l1 → _id x ≠ id) ∧
    delete_first id l = l1 ++ l2 ∧
    update_first id f l = l1 ++ f r :: l2.
Proof.
  induction l as [| x l IH]; [done |].
  rewrite filter_cons. cbn [delete_first update_first].
  destruct (by_id id x) eqn:Hx.
  - rewrite decide_True by done. intros [= ->].
    exists [], l. split_and!; try done.
    + unfold by_id in Hx. by apply bool_decide_eq_true in Hx.
    + intros y Hy. by apply elem_of_nil in Hy.
  - rewrite decide_False by done. intros Hhead.
    destruct (IH Hhead) as (l1 & l2 & -> & Hid & Hl1 & Hdel & Hupd).
    exists (x :: l1), l2. rewrite Hdel, Hupd. split_and!; try done.
    intros y Hy. apply elem_of_cons in Hy as [-> | Hy]; [| by apply Hl1].
    unfold by_id in Hx. by apply bool_decide_eq_false in Hx.
Qed.

Lemma remove_resolved (id : ObjectId) (fx : effects) (s : service)
    (r : Recipe) :
  found id s = Some r →
  deleteImage fx (public_id r) = Resolved () →
  store_write fx = Resolved () →
  remove id fx s =
    (Ok {| message := "Receta eliminada correctamente";
           written_name := Some (name r) |},
     with_RecipeEntity (delete_first id (RecipeEntity s)) (invalidated s)).
Proof.
  intros Hfound Hdel Hst. pose proof (invalidated_store s) as (Hr & _ & _).
  unfold found in Hfound.
  unfold remove. unfold bind at 1. rewrite findById_eq, Hfound.
  unfold bind at 1. rewrite invalidate_eq.
  unfold findByIdAndDelete, bind, await, modify, ret.
  rewrite Hdel, Hst. cbn. by rewrite Hr.
Qed.

(** X13.  [remove] on a stored recipe, with the image host and the store
    answering: the caller gets the confirmation with the name of the recipe
    that was stored; the collection loses that recipe and no other; and, ids
    being unique, [findOne] on the same id then throws the 404. *)
Theorem remove_deletes_recipe (id : ObjectId) (fx : effects) (s : service)
    (r : Recipe) :
  found id s = Some r →
  deleteImage fx (public_id r) = Resolved () →
  store_write fx = Resolved () →
  unique_ids (RecipeEntity s) →
  let s' := snd (remove id fx s) in
  fst (remove id fx s) =
    Ok {| message := "Receta eliminada correctamente";
          written_name := Some (name r) |} ∧
  count s' = count s - 1 ∧
  (∀ x, x ∈ RecipeEntity s' ↔ x ∈ RecipeEntity s ∧ _id x ≠ id) ∧
  findOne id s' = (Throw recipe_not_found, s').
Proof.
  intros Hfound Hdel Hst Huniq. cbv zeta.
  rewrite (remove_resolved id fx s r Hfound Hdel Hst). cbn [fst snd].
  unfold found in Hfound.
  destruct (first_by_id_split id (RecipeEntity s) r (λ x, x) Hfound)
    as (l1 & l2 & Hl & Hid & Hl1 & Hdf & _).
  assert (Hrest : ∀ x, x ∈ l1 ++ l2 ↔ x ∈ RecipeEntity s ∧ _id x ≠ id).
  { intros x. rewrite Hl, !elem_of_app, elem_of_cons.
    unfold unique_ids in Huniq. rewrite Hl, fmap_app, fmap_cons in Huniq.
    apply NoDup_app in Huniq as (_ & Hdisj & Hnd).
    apply NoDup_cons in Hnd as [Hnotin _].
    split.
    - intros [Hx | Hx].
      + split; [by left |]. by apply Hl1.
      + split; [by right; right |]. intros Heq. apply Hnotin.
        rewrite Hid, <- Heq. by apply list_elem_of_fmap_2.
    - intros [[Hx | [-> | Hx]] Hne]; [by left | done | by right]. }
  split_and!.
  - done.
  - unfold count. cbn [RecipeEntity with_RecipeEntity].
    rewrite Hdf, Hl, !length_app. cbn. lia.
  - cbn [RecipeEntity with_RecipeEntity]. by rewrite Hdf.
  - rewrite findOne_by_found, found_none; [done |].
    cbn [RecipeEntity with_RecipeEntity]. rewrite Hdf.
    intros x Hx. by apply Hrest in Hx as [_ ?].
Qed.

Lemma remove_deletes_recipe_witness :
  let s' := snd (remove "a" all_well both_listed) in
  RecipeEntity s' = [arepa] ∧
  findOne "a" s' = (Throw recipe_not_found, s').
Proof.
  cbv zeta.
  destruct (remove_deletes_recipe "a" all_well both_listed flan
              eq_refl eq_refl eq_refl) as (_ & _ & _ & Hone).
  - change (RecipeEntity both_listed) with [flan; arepa].
    unfold unique_ids. apply (bool_decide_unpack _). by vm_compute.
  - split; [reflexivity | exact Hone].
Defined.

(** What [update] and [remove] do at each rejection, the recipe found. *)
Lemma remove_rejected (id : ObjectId) (fx : effects) (s : service)
    (r : Recipe) :
  found id s = Some r →
  (∀ cause,
     deleteImage fx (public_id r) = Rejected cause →
     remove id fx s = (Throw (Failure cause), invalidated s)) ∧
  (∀ cause,
     deleteImage fx (public_id r) = Resolved () →
     store_write fx = Rejected cause →
     remove id fx s = (Throw (Failure cause), invalidated s)).
Proof.
  intros Hfound. unfold found in Hfound.
  split; intros cause; intros; unfold remove; unfold bind at 1;
    rewrite findById_eq, Hfound; unfold bind at 1; rewrite invalidate_eq;
    unfold findByIdAndDelete, bind, await, modify, ret;
    repeat match goal with H : _ = Rejected _ |- _ => rewrite H end;
    repeat match goal with H : _ = Resolved _ |- _ => rewrite H end;
    done.
Qed.

Lemma update_rejected (id : ObjectId) (dto : UpdateRecipeDto)
    (fx : effects) (s : service) (r : Recipe) :
  found id s = Some r →
  (∀ cause,
     store_write fx = Rejected cause →
     update id dto None fx s = (Throw (Failure cause), invalidated s)) ∧
  (∀ file cause,
     deleteImage fx (public_id r) = Rejected cause →
     update id dto (Some file) fx s =
       (Throw (Failure cause), invalidated s)) ∧
  (∀ file cause,
     deleteImage fx (public_id r) = Resolved () →
     uploadImage fx (path file) "recipes" = Rejected cause →
     update id dto (Some file) fx s =
       (Throw (Failure cause), invalidated s)) ∧
  (∀ file a cause,
     deleteImage fx (public_id r) = Resolved () →
     uploadImage fx (path file) "recipes" = Resolved a →
     unlink fx (path file) = Rejected cause →
     update id dto (Some file) fx s =
       (Throw (Failure cause), invalidated s)) ∧
  (∀ file a cause,
     deleteImage fx (public_id r) = Resolved () →
     uploadImage fx (path file) "recipes" = Resolved a →
     unlink fx (path file) = Resolved () →
     store_write fx = Rejected cause →
     update id dto (Some file) fx s =
       (Throw (Failure cause), invalidated s)).
Proof.
  intros Hfound. unfold found in Hfound.
  split_and!; intros; unfold update; unfold bind at 1;
    rewrite findById_eq, Hfound; unfold bind at 1; rewrite invalidate_eq;
    unfold findByIdAndUpdate, bind, await, modify, ret;
    repeat match goal with H : _ = Rejected _ |- _ => rewrite H end;
    repeat match goal with H : _ = Resolved _ |- _ => rewrite H end;
    done.
Qed.

(** X14.  Once the recipe is found, [update] and [remove] wrap nothing.
    Each rejection, of the image host deleting the old asset, of the
    upload, of the removal of the temporary file, of the write to the
    store, makes the method throw, and what the caller gets is that
    collaborator's own error with its cause, never an [HttpException]; the
    collection is then as it was, while the tracked entry is already
    deleted and the slot already empty.  Nothing else is ever thrown. *)
Theorem update_remove_errors_are_raw (id : ObjectId) (dto : UpdateRecipeDto)
    (image : option File) (fx : effects) (s : service) (r : Recipe) :
  found id s = Some r →
  (∀ cause,
     deleteImage fx (public_id r) = Rejected cause →
     remove id fx s = (Throw (Failure cause), invalidated s)) ∧
  (∀ cause,
     deleteImage fx (public_id r) = Resolved () →
     store_write fx = Rejected cause →
     remove id fx s = (Throw (Failure cause), invalidated s)) ∧
  (∀ cause,
     store_write fx = Rejected cause →
     update id dto None fx s = (Throw (Failure cause), invalidated s)) ∧
  (∀ file cause,
     deleteImage fx (public_id r) = Rejected cause →
     update id dto (Some file) fx s =
       (Throw (Failure cause), invalidated s)) ∧
  (∀ file cause,
     deleteImage fx (public_id r) = Resolved () →
     uploadImage fx (path file) "recipes" = Rejected cause →
     update id dto (Some file) fx s =
       (Throw (Failure cause), invalidated s)) ∧
  (∀ file a cause,
     deleteImage fx (public_id r) = Resolved () →
     uploadImage fx (path file) "recipes" = Resolved a →
     unlink fx (path file) = Rejected cause →
     update id dto (Some file) fx s =
       (Throw (Failure cause), invalidated s)) ∧
  (∀ file a cause,
     deleteImage fx (public_id r) = Resolved () →
     uploadImage fx (path file) "recipes" = Resolved a →
     unlink fx (path file) = Resolved () →
     store_write fx = Rejected cause →
     update id dto (Some file) fx s =
       (Throw (Failure cause), invalidated s)) ∧
  RecipeEntity (invalidated s) = RecipeEntity s ∧
  cacheKey (invalidated s) = "" ∧
  (match fst (update id dto image fx s) with
   | Throw e =>
       (∃ cause, e = Failure cause) ∧
       RecipeEntity (snd (update id dto image fx s)) = RecipeEntity s
   | Ok w =>
       w = {| message := "Receta actualizada correctamente";
              written_name := update_name dto |}
   end) ∧
  cacheKey (snd (update id dto image fx s)) = "" ∧
  (match fst (remove id fx s) with
   | Throw e =>
       (∃ cause, e = Failure cause) ∧
       RecipeEntity (snd (remove id fx s)) = RecipeEntity s
   | Ok w =>
       w = {| message := "Receta eliminada correctamente";
              written_name := Some (name r) |}
   end) ∧
  cacheKey (snd (remove id fx s)) = "".
Proof.
  intros Hfound.
  destruct (remove_rejected id fx s r Hfound) as (Hd1 & Hd2).
  destruct (update_rejected id dto fx s r Hfound)
    as (Hu0 & Hu1 & Hu2 & Hu3 & Hu4).
  unfold found in Hfound.
  pose proof (invalidated_cacheKey s) as Hk.
  pose proof (invalidated_store s) as (Hr & _ & _).
  assert (Hu : ∀ ru su, update id dto image fx s = (ru, su) →
    match ru with
    | Throw e =>
        (∃ cause, e = Failure cause) ∧ RecipeEntity su = RecipeEntity s
    | Ok w => w = {| message := "Receta actualizada correctamente";
                     written_name := update_name dto |}
    end ∧ cacheKey su = "").
  { intros ru su. unfold update. unfold bind at 1.
    rewrite findById_eq, Hfound. unfold bind at 1. rewrite invalidate_eq.
    unfold findByIdAndUpdate, bind, await, modify, throw, ret.
    destruct image as [file |]; cbn; outcomes; cbn; intros [= <- <-];
      eauto. }
  assert (Hd : ∀ rd sd, remove id fx s = (rd, sd) →
    match rd with
    | Throw e =>
        (∃ cause, e = Failure cause) ∧ RecipeEntity sd = RecipeEntity s
    | Ok w => w = {| message := "Receta eliminada correctamente";
                     written_name := Some (name r) |}
    end ∧ cacheKey sd = "").
  { intros rd sd. unfold remove. unfold bind at 1.
    rewrite findById_eq, Hfound. unfold bind at 1. rewrite invalidate_eq.
    unfold findByIdAndDelete, bind, await, modify, throw, ret.
    cbn; outcomes; cbn; intros [= <- <-]; eauto. }
  destruct (update id dto image fx s) as [ru su] eqn:Hru.
  destruct (remove id fx s) as [rd sd] eqn:Hrd.
  destruct (Hu _ _ eq_refl) as [? ?]. destruct (Hd _ _ eq_refl) as [? ?].
  by split_and!.
Qed.

Lemma update_remove_errors_are_raw_witness :
  remove "a" write_rejected both_listed =
    (Throw (Failure "MongoServerError"), invalidated both_listed) ∧
  RecipeEntity (invalidated both_listed) = [flan; arepa] ∧
  cacheKey (invalidated both_listed) = "".
Proof.
  destruct (update_remove_errors_are_raw "a"
              {| update_name := None; update_description := None;
                 update_ingredients := None; update_steps := None;
                 update_country := None; update_category := None;
                 update_image := None; update_public_id := None |}
              None write_rejected both_listed flan eq_refl)
    as (_ & Hstore & _ & _ & _ & _ & _ & Hr & Hk & _).
  split; [exact (Hstore "MongoServerError" eq_refl eq_refl) |].
  split; [exact Hr | exact Hk].
Defined.

Lemma update_resolved (id : ObjectId) (dto : UpdateRecipeDto) (file : File)
    (fx : effects) (s : service) (r : Recipe) (a : UploadApiResponse) :
  found id s = Some r →
  deleteImage fx (public_id r) = Resolved () →
  uploadImage fx (path file) "recipes" = Resolved a →
  unlink fx (path file) = Resolved () →
  store_write fx = Resolved () →
  update id dto (Some file) fx s =
    (Ok {| message := "Receta actualizada correctamente";
           written_name := update_name dto |},
     with_RecipeEntity
       (update_first id (apply_update (with_image a dto)) (RecipeEntity s))
       (invalidated s)).
Proof.
  intros Hfound Hdel Hup Hun Hst.
  pose proof (invalidated_store s) as (Hr & _ & _). unfold found in Hfound.
  unfold update. unfold bind at 1. rewrite findById_eq, Hfound.
  unfold bind at 1. rewrite invalidate_eq.
  unfold findByIdAndUpdate, bind, await, modify, ret.
  rewrite Hdel, Hup, Hun, Hst. cbn. by rewrite Hr.
Qed.

(** X15.  [update] with a new file, every collaborator answering: the image
    host is asked to delete the asset the stored recipe points to, and the
    recipe then stored under the id carries the URL and the asset id of the
    new upload together with the fields of the request; its id and its
    timestamp are kept, and so is every other recipe, the collection keeping
    its length and the order of its ids. *)
Theorem update_replaces_image (id : ObjectId) (dto : UpdateRecipeDto)
    (file : File) (fx : effects) (s : service) (r : Recipe)
    (a : UploadApiResponse) :
  found id s = Some r →
  deleteImage fx (public_id r) = Resolved () →
  uploadImage fx (path file) "recipes" = Resolved a →
  unlink fx (path file) = Resolved () →
  store_write fx = Resolved () →
  let s' := snd (update id dto (Some file) fx s) in
  let r' := apply_update (with_image a dto) r in
  fst (update id dto (Some file) fx s) =
    Ok {| message := "Receta actualizada correctamente";
          written_name := update_name dto |} ∧
  found id s' = Some r' ∧
  image r' = secure_url a ∧
  public_id r' = upload_public_id a ∧
  _id r' = id ∧
  createdAt r' = createdAt r ∧
  _id <$> RecipeEntity s' = _id <$> RecipeEntity s ∧
  (∀ x, x ∈ RecipeEntity s → _id x ≠ id → x ∈ RecipeEntity s').
Proof.
  intros Hfound Hdel Hup Hun Hst. cbv zeta.
  rewrite (update_resolved id dto file fx s r a Hfound Hdel Hup Hun Hst).
  cbn [fst snd]. unfold found in *.
  destruct (first_by_id_split id (RecipeEntity s) r
              (apply_update (with_image a dto)) Hfound)
    as (l1 & l2 & Hl & Hid & Hl1 & _ & Hupd).
  cbn [RecipeEntity with_RecipeEntity]. rewrite Hupd.
  split_and!; try done.
  - rewrite filter_app, filter_none.
    2: { intros x Hx. unfold by_id. rewrite bool_decide_eq_false_2; [done |].
         by apply Hl1. }
    rewrite filter_cons, decide_True; [done |].
    unfold by_id. by rewrite bool_decide_eq_true_2.
  - rewrite Hl, !fmap_app, !fmap_cons. done.
  - intros x Hx Hne. rewrite Hl in Hx.
    rewrite !elem_of_app, elem_of_cons in Hx |- *.
    destruct Hx as [Hx | [-> | Hx]]; [by left | done | by right; right].
Qed.

Lemma update_replaces_image_witness :
  found "a"
    (snd (update "a"
            {| update_name := Some "Flan casero"; update_description := None;
               update_ingredients := None; update_steps := None;
               update_country := None; update_category := None;
               update_image := None; update_public_id := None |}
            (Some upload_jpg) all_well both_listed)) =
  Some {| _id := "a";
          name := "Flan casero";
          description := "Flan de huevo";
          ingredients := ["huevos"; "leche"];
          steps := ["batir"; "hornear"];
          image := "https://img/new.png";
          public_id := "recipes/new";
          category := "c1";
          country := None;
          createdAt := 1 |}.
Proof.
  destruct (update_replaces_image "a"
              {| update_name := Some "Flan casero";
                 update_description := None;
                 update_ingredients := None; update_steps := None;
                 update_country := None; update_category := None;
                 update_image := None; update_public_id := None |}
              upload_jpg all_well both_listed flan
              {| secure_url := "https://img/new.png";
                 upload_public_id := "recipes/new" |}
              eq_refl eq_refl eq_refl eq_refl eq_refl) as (_ & Hfound & _).
  exact Hfound.
Defined.

(** ** What the requests do to the store *)

Lemma update_first_ids (id : ObjectId) (f : Recipe → Recipe)
    (l : list Recipe) :
  (∀ r, _id (f r) = _id r) → _id <$> update_first id f l = _id <$> l.
Proof.
  intros Hf. induction l as [| r l IH]; [done |]. cbn [update_first].
  destruct (by_id id r); cbn; [by rewrite Hf | by rewrite IH].
Qed.

Lemma delete_first_sublist (id : ObjectId) (l : list Recipe) :
  delete_first id l `sublist_of` l.
Proof.
  induction l as [| r l IH]; [done |]. cbn [delete_first].
  destruct (by_id id r); [by apply sublist_cons | by apply sublist_skip].
Qed.

(** The recipe collection after a write: untouched, or one recipe appended,
    or one recipe rewritten in place with its id kept, or one recipe taken
    out; the category collection is never written. *)
Lemma write_store (regex_i : string → string → bool) (rq : request)
    (s : service) :
  is_write rq = true →
  let s' := snd (handle regex_i rq s) in
  CategoryEntity s' = CategoryEntity s ∧
  (RecipeEntity s' = RecipeEntity s ∨
   (∃ dto image fx a,
      rq = Create dto image fx ∧
      RecipeEntity s' = RecipeEntity s ++ [created dto a fx]) ∨
   (∃ id f,
      (∀ r, _id (f r) = _id r) ∧
      RecipeEntity s' = update_first id f (RecipeEntity s)) ∨
   (∃ id, RecipeEntity s' = delete_first id (RecipeEntity s))).
Proof.
  pose proof (invalidated_store s) as (Hr & Hc & _).
  destruct rq as [| | | | | dto image fx | id dto image fx | id fx];
    try done; intros _; cbv zeta; cbn [handle]; rewrite fmapM_snd.
  - destruct (create dto image fx s) as [rc sc] eqn:Hrun. cbn [snd].
    revert Hrun. unfold create, try_catch, bind. rewrite invalidate_eq.
    unfold image_path, not_awaited, save, bind, await, console_log, modify,
      throw, ret.
    destruct image as [file |]; cbn; outcomes; cbn;
      intros [= <- <-]; cbn; rewrite ?Hr, ?Hc; (split; [done |]).
    all: try (by left). all: right; left; by eexists _, _, _, _.
  - destruct (update id dto image fx s) as [ru su] eqn:Hrun. cbn [snd].
    revert Hrun. unfold update. unfold bind at 1. rewrite findById_eq.
    destruct (head _) as [r |];
      [| unfold throw; intros [= <- <-]; split; [done | by left]].
    unfold bind at 1. rewrite invalidate_eq.
    unfold findByIdAndUpdate, bind, await, modify, throw, ret.
    destruct image as [file |]; cbn; outcomes; cbn;
      intros [= <- <-]; cbn; rewrite ?Hr, ?Hc; (split; [done |]).
    all: try (by left).
    all: right; right; left; eexists _, _; (split; [| reflexivity]); done.
  - destruct (remove id fx s) as [rd sd] eqn:Hrun. cbn [snd].
    revert Hrun. unfold remove. unfold bind at 1. rewrite findById_eq.
    destruct (head _) as [r |];
      [| unfold throw; intros [= <- <-]; split; [done | by left]].
    unfold bind at 1. rewrite invalidate_eq.
    unfold findByIdAndDelete, bind, await, modify, throw, ret.
    cbn; outcomes; cbn; intros [= <- <-]; cbn; rewrite ?Hr, ?Hc;
      (split; [done |]).
    all: try (by left). all: right; right; right; by eexists.
Qed.

(** X16.  No request breaks the uniqueness of ids: if no two stored recipes
    share an id, then none do after any request, provided the id the store
    gives to a created recipe is not in use. *)
Theorem requests_keep_ids_unique (regex_i : string → string → bool)
    (rq : request) (s : service) :
  unique_ids (RecipeEntity s) →
  (∀ dto image fx r,
     rq = Create dto image fx → r ∈ RecipeEntity s → _id r ≠ new_id fx) →
  unique_ids (RecipeEntity (snd (handle regex_i rq s))).
Proof.
  intros Huniq Hfresh. destruct (is_write rq) eqn:Hw.
  - destruct (write_store regex_i rq s Hw) as (_ & Hstore).
    destruct Hstore as [-> | [(dto & image & fx & a & -> & ->) |
                              [(id & f & Hf & ->) | (id & ->)]]].
    + done.
    + unfold unique_ids. rewrite fmap_app. apply NoDup_app.
      split_and!; [done | | apply NoDup_singleton].
      intros i Hi Hin. apply list_elem_of_fmap in Hi as (r & -> & Hr).
      apply elem_of_cons in Hin as [Hin | Hin];
        [| by apply elem_of_nil in Hin].
      by apply (Hfresh dto image fx r).
    + unfold unique_ids. by rewrite update_first_ids.
    + unfold unique_ids in *. eapply sublist_NoDup; [done |].
      apply fmap_sublist, delete_first_sublist.
  - destruct (is_findAll rq) eqn:Hf.
    + destruct rq as [p l | | | | | | |]; try done.
      cbn [handle]. rewrite fmapM_snd.
      by destruct (findAll_effect p l s) as (_ & -> & _).
    + by rewrite read_spec.
Qed.

Lemma requests_keep_ids_unique_witness :
  unique_ids
    (RecipeEntity
       (snd (handle literal_i
               (Create sancocho_dto (Some upload_jpg) all_well)
               two_recipes))).
Proof.
  apply requests_keep_ids_unique.
  - unfold unique_ids. apply (bool_decide_unpack _). by vm_compute.
  - intros dto image fx r [= <- <- <-] Hr. cbn in Hr.
    repeat (apply elem_of_cons in Hr as [-> | Hr]; [done |]).
    by apply elem_of_nil in Hr.
Defined.

Lemma handle_categories (regex_i : string → string → bool) (rq : request)
    (s : service) :
  CategoryEntity (snd (handle regex_i rq s)) = CategoryEntity s.
Proof.
  destruct (is_write rq) eqn:Hw.
  - by destruct (write_store regex_i rq s Hw) as [-> _].
  - destruct (is_findAll rq) eqn:Hf.
    + destruct rq as [p l | | | | | | |]; try done.
      cbn [handle]. rewrite fmapM_snd.
      by destruct (findAll_effect p l s) as (_ & _ & -> & _).
    + by rewrite read_spec.
Qed.

Lemma findAll_console (page limit : Z) (s : service) :
  console (snd (findAll page limit s)) = console s.
Proof.
  rewrite findAll_unfold. cbv zeta.
  destruct (paginateResults _ _ _); [| done].
  by destruct (cacheManager s !! generateCacheKey page limit).
Qed.

(** X17.  The service never writes to the category collection, whatever
    the requests; and requests other than writes (lists, lookups, searches)
    leave the recipe collection and the log as they are. *)
Theorem reads_write_nothing (regex_i : string → string → bool)
    (rqs : list request) (s : service) :
  CategoryEntity (snd (serve regex_i rqs s)) = CategoryEntity s ∧
  (Forall (λ rq, is_write rq = false) rqs →
     RecipeEntity (snd (serve regex_i rqs s)) = RecipeEntity s ∧
     console (snd (serve regex_i rqs s)) = console s).
Proof.
  split.
  - revert s. induction rqs as [| rq rqs IH]; intros s; [done |].
    rewrite serve_cons. cbn [snd]. by rewrite IH, handle_categories.
  - intros Hreads. revert s.
    induction Hreads as [| rq rqs Hrq _ IH]; intros s; [done |].
    rewrite serve_cons. cbn [snd].
    destruct (IH (snd (handle regex_i rq s))) as [-> ->].
    destruct (is_findAll rq) eqn:Hf.
    + destruct rq as [p l | | | | | | |]; try done.
      cbn [handle]. rewrite fmapM_snd.
      destruct (findAll_effect p l s) as (_ & -> & _).
      by rewrite findAll_console.
    + by rewrite read_spec.
Qed.

Lemma reads_write_nothing_witness :
  let s' :=
    snd (serve literal_i
           [FindAll 1 1; FindOne "zzz"; GetLatestRecipes 0;
            SearchByName {| search_name := "a" |};
            GetRecipesByCategory "c1"; FindAll 9 9] two_recipes) in
  RecipeEntity s' = [flan; arepa] ∧ console s' = [].
Proof.
  apply (reads_write_nothing literal_i
           [FindAll 1 1; FindOne "zzz"; GetLatestRecipes 0;
            SearchByName {| search_name := "a" |};
            GetRecipesByCategory "c1"; FindAll 9 9] two_recipes).
  repeat constructor.
Defined.

(** ** Searches and filters *)

(** X18.  [searchByName] answers with the message exactly when no stored
    name matches the pattern.  Otherwise it returns, newest first, one
    listed document for each recipe whose name matches and nothing else. *)
Theorem searchByName_results (regex_i : string → string → bool)
    (dto : SearchRecipeDto) (s : service) :
  (fst (searchByName regex_i dto s) =
     Ok (Message "No se encontraron recetas con ese nombre.") ↔
   ∀ r, r ∈ RecipeEntity s → regex_i (search_name dto) (name r) = false) ∧
  (∀ l, fst (searchByName regex_i dto s) = Ok (Recipes l) →
     l ≠ [] ∧
     (∀ d, d ∈ l ↔
        ∃ r, r ∈ RecipeEntity s ∧
             regex_i (search_name dto) (name r) = true ∧
             d = listed (CategoryEntity s) r) ∧
     StronglySorted newest_document_first l ∧
     length l =
       length (filter (λ r, regex_i (search_name dto) (name r) = true)
                 (RecipeEntity s))).
Proof.
  set (matches :=
    filter (λ r, regex_i (search_name dto) (name r) = true) (RecipeEntity s)).
  assert (Hrun : searchByName regex_i dto s =
    let l := listed (CategoryEntity s) <$> merge_sort newer_first matches in
    (if (length l =? 0)%nat
     then Ok (Message "No se encontraron recetas con ese nombre.")
     else Ok (Recipes l), s)).
  { unfold searchByName, bind, exec, gets, ret, exec_query. cbn.
    fold matches. by destruct (length _ =? 0)%nat. }
  rewrite Hrun. cbv zeta. clear Hrun.
  assert (Hlen : length (listed (CategoryEntity s) <$>
                           merge_sort newer_first matches) = length matches).
  { rewrite length_fmap.
    apply Permutation_length, merge_sort_Permutation. }
  rewrite Hlen. split.
  - destruct (Nat.eqb_spec (length matches) 0) as [H0 | Hne]; cbn [fst].
    + split; [intros _ | done]. apply nil_length_inv in H0.
      intros r Hr. destruct (regex_i _ _) eqn:Hm; [| done].
      assert (r ∈ matches) by (by apply list_elem_of_filter).
      rewrite H0 in *. by apply elem_of_nil in H.
    + split; [done |]. intros Hnone. exfalso. apply Hne.
      subst matches. rewrite filter_none; [done |].
      intros r Hr. by rewrite Hnone.
  - intros l. destruct (Nat.eqb_spec (length matches) 0) as [H0 | Hne];
      cbn [fst]; [done |]. intros [= <-]. split_and!.
    + intros Hnil. apply (f_equal length) in Hnil. rewrite Hlen in Hnil.
      by cbn in Hnil.
    + intros d. rewrite list_elem_of_fmap. split.
      * intros (r & -> & Hr). rewrite merge_sort_Permutation in Hr.
        apply list_elem_of_filter in Hr as [Hm Hr]. by exists r.
      * intros (r & Hr & Hm & ->). exists r. split; [done |].
        rewrite merge_sort_Permutation. by apply list_elem_of_filter.
    + apply (StronglySorted_fmap _ newer_first); [by intros x y |].
      apply StronglySorted_merge_sort; apply _.
    + done.
Qed.

Lemma searchByName_results_witness :
  fst (searchByName literal_i {| search_name := "AREPA" |} two_recipes) =
    Ok (Recipes [listed [postres] arepa]) ∧
  ∀ d, d ∈ [listed [postres] arepa] ↔
       ∃ r, r ∈ RecipeEntity two_recipes ∧
            literal_i "AREPA" (name r) = true ∧
            d = listed (CategoryEntity two_recipes) r.
Proof.
  split; [reflexivity |].
  apply (proj2 (searchByName_results literal_i {| search_name := "AREPA" |}
                  two_recipes) [listed [postres] arepa] eq_refl).
Defined.

(** [getRecipesByCategory] on a category id already cast. *)
Lemma getRecipesByCategory_cast_results (categoryId : ObjectId) (s : service) :
  let of_category :=
    filter (λ r, category r = categoryId) (RecipeEntity s) in
  (fst (getRecipesByCategory categoryId s) =
     Ok (Message "No hay recetas en esta categoria") ↔
   ∀ r, r ∈ RecipeEntity s → category r ≠ categoryId) ∧
  (∀ l, fst (getRecipesByCategory categoryId s) = Ok (Recipes l) →
     l ≠ [] ∧
     l = listed (CategoryEntity s) <$> of_category ∧
     of_category `sublist_of` RecipeEntity s ∧
     ∀ d, d ∈ l → ∃ c, doc_category d = Populated c ∧
                       ∀ c', c = Some c' → category_id c' = categoryId).
Proof.
  cbv zeta.
  set (of_category := filter (λ r, category r = categoryId) (RecipeEntity s)).
  assert (Hfilter :
    filter (λ r, bool_decide (category r = categoryId) = true)
      (RecipeEntity s) = of_category).
  { apply list_filter_iff. intros r. apply bool_decide_eq_true. }
  assert (Hrun : getRecipesByCategory categoryId s =
    let l := listed (CategoryEntity s) <$> of_category in
    (if (length l =? 0)%nat
     then Ok (Message "No hay recetas en esta categoria")
     else Ok (Recipes l), s)).
  { unfold getRecipesByCategory, bind, exec, gets, ret, exec_query. cbn.
    rewrite Hfilter. by destruct (length _ =? 0)%nat. }
  rewrite Hrun. cbv zeta. clear Hrun. rewrite length_fmap. split.
  - destruct (Nat.eqb_spec (length of_category) 0) as [H0 | Hne]; cbn [fst].
    + split; [intros _ | done]. apply nil_length_inv in H0.
      intros r Hr Hcat.
      assert (Hin : r ∈ of_category) by (by apply list_elem_of_filter).
      rewrite H0 in Hin. by apply elem_of_nil in Hin.
    + split; [done |]. intros Hnone. exfalso. apply Hne.
      subst of_category. by rewrite filter_none.
  - intros l. destruct (Nat.eqb_spec (length of_category) 0) as [H0 | Hne];
      cbn [fst]; [done |]. intros [= <-]. split_and!.
    + intros Hnil. apply (f_equal length) in Hnil.
      rewrite length_fmap in Hnil. by cbn in Hnil.
    + done.
    + apply sublist_filter.
    + intros d Hd. apply list_elem_of_fmap in Hd as (r & -> & Hr).
      apply list_elem_of_filter in Hr as [Hcat _].
      eexists. split; [done |]. intros c' Hc'.
      unfold findCategory in Hc'.
      destruct (head _) as [c |] eqn:Hhead; [| done].
      injection Hc' as <-. apply head_Some_elem_of in Hhead.
      apply list_elem_of_filter in Hhead as [Hid _]. cbn. congruence.
Qed.

(** X19.  [getRecipesByCategory] with a well-formed category id answers
    with the message exactly when no stored recipe refers to the category;
    otherwise it returns one listed document for each recipe of the
    category, in the order of the store, and nothing else.  With a string
    the driver cannot cast to an ObjectId it ends in the cast error. *)
Theorem getRecipesByCategory_results
    (castObjectId : string → option ObjectId) (categoryId : string)
    (s : service) :
  (castObjectId categoryId = None →
   getRecipesByCategory_raw castObjectId categoryId s =
     (Throw (cast_failed categoryId), s)) ∧
  (∀ cid, castObjectId categoryId = Some cid →
     let of_category := filter (λ r, category r = cid) (RecipeEntity s) in
     (fst (getRecipesByCategory_raw castObjectId categoryId s) =
        Ok (Message "No hay recetas en esta categoria") ↔
      ∀ r, r ∈ RecipeEntity s → category r ≠ cid) ∧
     (∀ l,
        fst (getRecipesByCategory_raw castObjectId categoryId s) =
          Ok (Recipes l) →
        l ≠ [] ∧
        l = listed (CategoryEntity s) <$> of_category ∧
        of_category `sublist_of` RecipeEntity s ∧
        ∀ d, d ∈ l → ∃ c, doc_category d = Populated c ∧
                          ∀ c', c = Some c' → category_id c' = cid)).
Proof.
  split.
  - intros Hcast. unfold getRecipesByCategory_raw. by rewrite castId_none.
  - intros cid Hcast. unfold getRecipesByCategory_raw.
    rewrite (castId_some _ _ cid) by done.
    apply getRecipesByCategory_cast_results.
Qed.

Lemma getRecipesByCategory_results_witness :
  (fst (getRecipesByCategory_raw hex24 "64b000000000000000000009"
          two_recipes) =
     Ok (Message "No hay recetas en esta categoria") ↔
   ∀ r, r ∈ RecipeEntity two_recipes →
        category r ≠ "64b000000000000000000009") ∧
  getRecipesByCategory_raw hex24 "zzz" two_recipes =
    (Throw (cast_failed "zzz"), two_recipes).
Proof.
  destruct (getRecipesByCategory_results hex24 "64b000000000000000000009"
              two_recipes) as [_ Hsome].
  destruct (getRecipesByCategory_results hex24 "zzz" two_recipes)
    as [Hnone _].
  split; [| by apply Hnone].
  apply (Hsome "64b000000000000000000009" eq_refl).
Defined.

(** X20.  [getLatestRecipes] returns stored recipes, the newest first,
    and leaves the service as it was: [min limit count] of them for a
    positive limit, the whole collection for limit 0, and for a negative
    limit no more than its absolute value. *)
Theorem getLatestRecipes_bound (limit : Z) (s : service) :
  ∃ l, getLatestRecipes limit s = (Ok l, s) ∧
       StronglySorted newest_document_first l ∧
       (0 < limit → Z.of_nat (length l) = Z.min limit (count s)) ∧
       (limit = 0 → Z.of_nat (length l) = count s) ∧
       (limit < 0 → Z.of_nat (length l) ≤ Z.min (- limit) (count s)) ∧
       (∀ d, d ∈ l → ∃ r, r ∈ RecipeEntity s ∧ d = hydrate r).
Proof.
  eexists. split.
  { unfold getLatestRecipes, exec, gets, exec_query.
    cbn [Q.sort Q.limit Q.find_all Q.find conditions skip_option
      limit_option sort_option select_option populate_option apply_sort
      apply_skip].
    rewrite filter_all. change (-1 <? 0) with true. cbn match.
    reflexivity. }
  set (sorted := merge_sort newer_first (RecipeEntity s)).
  assert (Hsorted : StronglySorted newer_first sorted)
    by (apply StronglySorted_merge_sort; apply _).
  assert (Hlen : length sorted = length (RecipeEntity s))
    by apply Permutation_length, merge_sort_Permutation.
  assert (Hrender : ∀ l : list Recipe,
    render (CategoryEntity s) (Q.find_all |> Q.limit limit |> Q.sort (-1))
      <$> l = hydrate <$> l).
  { intros l. by apply list_fmap_ext. }
  rewrite Hrender. unfold apply_limit. split_and!.
  - apply (StronglySorted_fmap _ newer_first); [by intros x y |].
    case_decide; [done |].
    apply (StronglySorted_app_1_l _ _ (drop (Z.to_nat (Z.abs limit)) sorted)).
    by rewrite take_drop.
  - intros Hpos. rewrite decide_False by lia.
    rewrite length_fmap, length_take, Hlen. unfold count. lia.
  - intros ->. rewrite decide_True by done.
    by rewrite length_fmap, Hlen.
  - intros Hneg. rewrite decide_False by lia.
    rewrite length_fmap, length_take, Hlen. unfold count. lia.
  - intros d Hd. apply list_elem_of_fmap in Hd as (r & -> & Hr).
    exists r. split; [| done].
    assert (Hin : r ∈ sorted).
    { revert Hr. case_decide; [done |]. apply subseteq_take. }
    unfold sorted in Hin. by rewrite merge_sort_Permutation in Hin.
Qed.

(** ** Lists around a write *)

Lemma paginate_ok_grows (T page limit : Z) :
  0 ≤ T →
  is_ok (paginateResults T page limit) = true →
  is_ok (paginateResults (T + 1) page limit) = true.
Proof.
  intros HT. unfold paginateResults.
  destruct (Z.ltb_spec page 1) as [| Hpage]; [done |]. cbn [orb].
  destruct (js_gt page (ceil_div T limit)) eqn:Hgt; [done |]. intros _.
  assert (Hgt' : js_gt page (ceil_div (T + 1) limit) = false);
    [| by rewrite Hgt'].
  destruct (decide (limit = 0)) as [-> | Hne].
  - unfold ceil_div. rewrite decide_True by done.
    by rewrite decide_True by lia.
  - destruct (decide (limit < 0)) as [Hneg | Hpos].
    + destruct (ceil_div_negative T limit HT Hneg) as (n & Hn & Hle).
      rewrite Hn in Hgt. cbn in Hgt. apply bool_decide_eq_false in Hgt. lia.
    + assert (Hlimit : 1 ≤ limit) by lia.
      rewrite ceil_div_pos in Hgt |- * by done. cbn [js_gt] in *.
      apply bool_decide_eq_false in Hgt. apply bool_decide_eq_false.
      pose proof (ceil_div_bounds T limit Hlimit) as Hb.
      pose proof (ceil_div_bounds (T + 1) limit Hlimit) as Hb'.
      cbv zeta in Hb, Hb'. nia.
Qed.

Lemma generateCacheKey_nonempty (page limit : Z) :
  generateCacheKey page limit ≠ "".
Proof. done. Qed.

Lemma findAll_ok_valid (page limit : Z) (s s1 : service)
    (d : recipePageData) :
  findAll page limit s = (Ok d, s1) →
  is_ok (paginateResults (count s) page limit) = true ∧
  cacheKey s1 = generateCacheKey page limit ∧
  RecipeEntity s1 = RecipeEntity s ∧
  CategoryEntity s1 = CategoryEntity s.
Proof.
  intros Hrun.
  destruct (findAll_effect page limit s) as (Hk & Hr & Hc & _).
  rewrite Hrun in Hk, Hr, Hc. cbn [snd] in *. split_and!; try done.
  revert Hrun. rewrite findAll_unfold. cbv zeta.
  by destruct (paginateResults _ _ _).
Qed.

Lemma fresh_page_query (page limit : Z) (s : service) :
  is_ok (paginateResults (count s) page limit) = true →
  fresh_page page limit s =
    exec_query
      {| conditions := λ _, true;
         skip_option := Some ((page - 1) * limit);
         limit_option := Some limit;
         sort_option := Some (-1);
         select_option := minus_public_id;
         populate_option := Some minus_public_id |}
      (RecipeEntity s) (CategoryEntity s).
Proof.
  intros Hvalid. unfold fresh_page. rewrite findAll_unfold. cbv zeta.
  change (cacheManager (with_cacheManager ∅ s)) with
    (∅ : gmap string recipePageData).
  rewrite lookup_empty.
  change (count (with_cacheManager ∅ s)) with (count s).
  by destruct (paginateResults _ _ _).
Qed.

(** X21.  The single slot does its job for the page listed last: after a
    list request was answered, a [create] that goes through deletes that
    page's entry, and the same list request is then answered from the
    store, with the new count and the data of the collection as it now
    is. *)
Theorem create_refreshes_last_listed (page limit : Z) (s s1 : service)
    (d : recipePageData) (dto : CreateRecipeDto) (file : File)
    (fx : effects) (a : UploadApiResponse) :
  findAll page limit s = (Ok d, s1) →
  uploadImage fx (path file) "recipes" = Resolved a →
  unlink fx (path file) = Resolved () →
  store_write fx = Resolved () →
  let s2 := snd (create dto (Some file) fx s1) in
  cacheManager s2 !! generateCacheKey page limit = None ∧
  ∃ d', fst (findAll page limit s2) = Ok d' ∧
        totalRecipes d' = count s + 1 ∧
        data d' = fresh_page page limit s2 ∧
        cacheManager (snd (findAll page limit s2))
          !! generateCacheKey page limit = Some d'.
Proof.
  intros Hfirst Hup Hun Hst. cbv zeta.
  destruct (findAll_ok_valid _ _ _ _ _ Hfirst) as (Hvalid & Hk & Hr & Hc).
  rewrite (create_resolved dto file fx s1 a Hup Hun Hst). cbn [snd].
  set (s2 := with_RecipeEntity _ _).
  assert (Hcount : count s2 = count s + 1).
  { unfold count, s2. cbn. rewrite length_app, Hr. cbn. lia. }
  assert (Hmiss : cacheManager s2 !! generateCacheKey page limit = None).
  { unfold s2. cbn -[generateCacheKey].
    rewrite invalidated_cacheManager, Hk.
    rewrite bool_decide_eq_false_2 by apply generateCacheKey_nonempty.
    apply lookup_delete_eq. }
  assert (Hvalid2 : is_ok (paginateResults (count s2) page limit) = true).
  { rewrite Hcount. apply paginate_ok_grows; [unfold count; lia | done]. }
  split; [done |].
  rewrite (fresh_page_query page limit s2 Hvalid2).
  rewrite findAll_unfold. cbv zeta. rewrite Hmiss.
  destruct (paginateResults (count s2) page limit); [| done].
  eexists. cbn -[generateCacheKey exec_query].
  split_and!; [done | done | done |]. apply lookup_insert_eq.
Qed.

Lemma create_refreshes_last_listed_witness :
  let s2 :=
    snd (create sancocho_dto (Some upload_jpg) all_well
           (snd (findAll 1 1 two_recipes))) in
  ∃ d', fst (findAll 1 1 s2) = Ok d' ∧ totalRecipes d' = 3.
Proof.
  cbv zeta.
  destruct (findAll 1 1 two_recipes) as [r1 s1] eqn:Hfirst.
  destruct r1 as [d | e]; [| vm_compute in Hfirst; discriminate].
  destruct (create_refreshes_last_listed 1 1 two_recipes s1 d sancocho_dto
              upload_jpg all_well
              {| secure_url := "https://img/new.png";
                 upload_public_id := "recipes/new" |}
              Hfirst eq_refl eq_refl eq_refl)
    as (_ & d' & Hsecond & Htotal & _).
  exists d'. split; [exact Hsecond | exact Htotal].
Defined.

(** X22.  The slot does nothing for any other page: when page A was
    listed from the store, then a different page B, and a [create] goes
    through, a new request for page A is still answered with the payload
    from before the write, whose count is one short of the collection. *)
Theorem create_leaves_other_page_stale (pA lA pB lB : Z)
    (s s1 s2 : service) (dA dB : recipePageData) (dto : CreateRecipeDto)
    (file : File) (fx : effects) (a : UploadApiResponse) :
  cacheManager s !! generateCacheKey pA lA = None →
  findAll pA lA s = (Ok dA, s1) →
  findAll pB lB s1 = (Ok dB, s2) →
  (pA, lA) ≠ (pB, lB) →
  uploadImage fx (path file) "recipes" = Resolved a →
  unlink fx (path file) = Resolved () →
  store_write fx = Resolved () →
  let s3 := snd (create dto (Some file) fx s2) in
  findAll pA lA s3 = (Ok dA, with_cacheKey (generateCacheKey pA lA) s3) ∧
  totalRecipes dA = count s ∧
  count s3 = count s + 1.
Proof.
  intros Hmiss HA HB Hne Hup Hun Hst. cbv zeta.
  destruct (findAll_ok_valid _ _ _ _ _ HA) as (HvalidA & _ & Hr1 & _).
  destruct (findAll_ok_valid _ _ _ _ _ HB) as (_ & Hk2 & Hr2 & _).
  pose proof (findAll_ok_cached _ _ _ _ _ HA) as HcachedA.
  destruct (findAll_effect pB lB s1) as (_ & _ & _ & Hkeep).
  rewrite HB in Hkeep. cbn [snd] in Hkeep. apply Hkeep in HcachedA.
  rewrite (create_resolved dto file fx s2 a Hup Hun Hst). cbn [snd].
  set (s3 := with_RecipeEntity _ _).
  assert (Hcount : count s3 = count s + 1).
  { unfold count, s3. cbn. rewrite length_app, Hr2, Hr1. cbn. lia. }
  assert (Htotal : totalRecipes dA = count s).
  { revert HA. rewrite findAll_unfold. cbv zeta. rewrite Hmiss.
    destruct (paginateResults _ _ _); [| done]. by intros [= <- _]. }
  split_and!; [| done | done].
  apply findAll_hit.
  - unfold s3. cbn -[generateCacheKey].
    rewrite invalidated_frame; [done |]. rewrite Hk2.
    intros Heq. apply generateCacheKey_inj in Heq as [-> ->]. done.
  - rewrite Hcount. apply paginate_ok_grows; [unfold count; lia | done].
Qed.

Lemma create_leaves_other_page_stale_witness :
  let s3 :=
    snd (create sancocho_dto (Some upload_jpg) all_well both_listed) in
  ∃ dA, fst (findAll 2 1 s3) = Ok dA ∧ totalRecipes dA = 2 ∧ count s3 = 3.
Proof.
  cbv zeta.
  destruct (findAll 2 1 two_recipes) as [rA s1] eqn:HA.
  destruct rA as [dA | e]; [| vm_compute in HA; discriminate].
  assert (Hs1 : s1 = snd (findAll 2 1 two_recipes)) by (by rewrite HA).
  destruct (findAll 1 1 s1) as [rB s2] eqn:HB.
  destruct rB as [dB | e];
    [| rewrite Hs1 in HB; vm_compute in HB; discriminate].
  assert (Hs2 : s2 = both_listed).
  { apply (f_equal snd) in HB. cbn in HB. rewrite <- HB, Hs1. reflexivity. }
  destruct (create_leaves_other_page_stale 2 1 1 1 two_recipes s1 s2 dA dB
              sancocho_dto upload_jpg all_well
              {| secure_url := "https://img/new.png";
                 upload_public_id := "recipes/new" |}
              eq_refl HA HB ltac:(by intros [=]) eq_refl eq_refl eq_refl)
    as (Hrun & Htotal & Hcount).
  rewrite Hs2 in Hrun, Hcount.
  exists dA. rewrite Hrun. by split_and!.
Defined.

(** X23.  [update] without a file does not involve the image host or the
    file system at all: whatever they would answer, when the store accepts
    the write the recipe under the id is rewritten with the fields of the
    request, a field the request leaves out keeping its stored value, and
    the id and the timestamp staying as they are. *)
Theorem update_without_file (id : ObjectId) (dto : UpdateRecipeDto)
    (fx : effects) (s : service) (r : Recipe) :
  found id s = Some r →
  store_write fx = Resolved () →
  let s' := snd (update id dto None fx s) in
  let r' := apply_update dto r in
  fst (update id dto None fx s) =
    Ok {| message := "Receta actualizada correctamente";
          written_name := update_name dto |} ∧
  found id s' = Some r' ∧
  _id r' = id ∧
  createdAt r' = createdAt r ∧
  (update_name dto = None → name r' = name r) ∧
  (update_image dto = None → image r' = image r) ∧
  (update_public_id dto = None → public_id r' = public_id r) ∧
  (∀ n, update_name dto = Some n → name r' = n) ∧
  _id <$> RecipeEntity s' = _id <$> RecipeEntity s.
Proof.
  intros Hfound Hst. cbv zeta.
  pose proof (invalidated_store s) as (Hr & _ & _).
  assert (Hrun : update id dto None fx s =
    (Ok {| message := "Receta actualizada correctamente";
           written_name := update_name dto |},
     with_RecipeEntity
       (update_first id (apply_update dto) (RecipeEntity s))
       (invalidated s))).
  { unfold found in Hfound.
    unfold update. unfold bind at 1. rewrite findById_eq, Hfound.
    unfold bind at 1. rewrite invalidate_eq.
    unfold findByIdAndUpdate, bind, await, modify, ret.
    rewrite Hst. cbn. by rewrite Hr. }
  rewrite Hrun. cbn [fst snd]. unfold found in *.
  destruct (first_by_id_split id (RecipeEntity s) r (apply_update dto)
              Hfound) as (l1 & l2 & Hl & Hid & Hl1 & _ & Hupd).
  cbn [RecipeEntity with_RecipeEntity]. rewrite Hupd.
  split_and!; try done.
  - rewrite filter_app, filter_none.
    2: { intros x Hx. unfold by_id. rewrite bool_decide_eq_false_2; [done |].
         by apply Hl1. }
    rewrite filter_cons, decide_True; [done |].
    unfold by_id. by rewrite bool_decide_eq_true_2.
  - unfold apply_update. cbn. by intros ->.
  - unfold apply_update. cbn. by intros ->.
  - unfold apply_update. cbn. by intros ->.
  - unfold apply_update. cbn. by intros n ->.
  - rewrite Hl, !fmap_app, !fmap_cons. done.
Qed.

Lemma update_without_file_witness :
  name <$>
    found "b"
      (snd (update "b"
              {| update_name := Some "Arepa de choclo";
                 update_description := None;
                 update_ingredients := None; update_steps := None;
                 update_country := None; update_category := None;
                 update_image := None; update_public_id := None |}
              None upload_rejected both_listed)) =
  Some "Arepa de choclo".
Proof.
  destruct (update_without_file "b"
              {| update_name := Some "Arepa de choclo";
                 update_description := None;
                 update_ingredients := None; update_steps := None;
                 update_country := None; update_category := None;
                 update_image := None; update_public_id := None |}
              upload_rejected both_listed arepa eq_refl eq_refl)
    as (_ & Hfound & _).
  by rewrite Hfound.
Defined.

Lemma getLatestRecipes_bound_witness :
  ∃ l, getLatestRecipes 1 two_recipes = (Ok l, two_recipes) ∧
       Z.of_nat (length l) = 1.
Proof.
  destruct (getLatestRecipes_bound 1 two_recipes)
    as (l & Hrun & _ & Hlen & _).
  exists l. split; [exact Hrun |]. by rewrite Hlen.
Defined.
